(** * chess-arena: the move value and the board engine

    A shallow embedding of [app/move.py] and [app/board.py].

    - Squares are pairs of Python integers, modelled as [Z * Z].
    - A cell of the grid is a one-character Python string, modelled as
      an [ascii]; the grid is the list of lists the class holds.
    - The castling dictionary is a finite map from keys to booleans.
    - Python exceptions are values of [exn]; a method that mutates
      [self] is a function from the board to an outcome and the board
      it leaves behind, so the state a raised exception leaves is
      visible. *)

From Stdlib Require Import ZArith Ascii String Bool List Lia Btauto.
From stdpp Require Import base list gmap strings.
Import ListNotations.
Open Scope Z_scope.

(** ** Python values and exceptions *)

(** The four [ValueError] families of the two modules, told apart by
    the message of their [raise] statement. *)
Inductive value_error : Type :=
| OutOfRange          (* "Invalid source/target position ..." *)
| InvalidPromotion    (* "Invalid promotion ..." *)
| MalformedNotation   (* "Invalid square notation: ..." *)
| IllegalMove.        (* "Invalid move: ..." *)

Inductive exn : Type :=
| ValueError (k : value_error)
| IndexError
| TypeError.

Inductive res (A : Type) : Type :=
| Ok (a : A)
| Raise (e : exn).
Arguments Ok {A} a.
Arguments Raise {A} e.

Definition res_bind {A B : Type} (r : res A) (k : A -> res B) : res B :=
  match r with
  | Ok a => k a
  | Raise e => Raise e
  end.

(** The value handed in as [promotion]: a [str], or an object of
    another type (an [int] stands for all of them). *)
Inductive pyobj : Type :=
| PyStr (s : string)
| PyInt (n : Z).

Definition isinstance_str (o : pyobj) : bool :=
  match o with
  | PyStr _ => true
  | PyInt _ => false
  end.

Definition ord (c : ascii) : Z := Z.of_N (N_of_ascii c).

(** [str.isupper] on one ASCII character. *)
Definition isupper (c : ascii) : bool := (65 <=? ord c) && (ord c <=? 90).

(** [str.upper] and [str.lower] on one ASCII character. *)
Definition upper (c : ascii) : ascii :=
  if (97 <=? ord c) && (ord c <=? 122)
  then ascii_of_N (Z.to_N (ord c - 32)) else c.

Definition lower (c : ascii) : ascii :=
  if (65 <=? ord c) && (ord c <=? 90)
  then ascii_of_N (Z.to_N (ord c + 32)) else c.

(** [x in s] for two strings: [x] occurs in [s] as a substring. *)
Fixpoint str_in (x s : string) : bool :=
  String.prefix x s ||
  match s with
  | EmptyString => false
  | String _ s' => str_in x s'
  end.

(** [o in s] raises [TypeError] when the left operand is not a string. *)
Definition py_in (o : pyobj) (s : string) : res bool :=
  match o with
  | PyStr x => Ok (str_in x s)
  | PyInt _ => Raise TypeError
  end.

Definition char_str (c : ascii) : string := String c EmptyString.

(** [int(c)] for a decimal digit [c]. *)
Definition int_of_digit (c : ascii) : Z := ord c - 48.

(** [l[i]] on a Python list: negative indexes count from the end and
    an index out of range raises [IndexError]. *)
Definition py_getitem {A : Type} (l : list A) (i : Z) : res A :=
  let n := Z.of_nat (length l) in
  let j := if i <? 0 then i + n else i in
  if (0 <=? j) && (j <? n)
  then match l !! Z.to_nat j with
       | Some x => Ok x
       | None => Raise IndexError
       end
  else Raise IndexError.

(** [l[i] = x] on a Python list, with the same indexing. *)
Definition py_setitem {A : Type} (l : list A) (i : Z) (x : A)
  : res (list A) :=
  let n := Z.of_nat (length l) in
  let j := if i <? 0 then i + n else i in
  if (0 <=? j) && (j <? n)
  then Ok (<[Z.to_nat j := x]> l)
  else Raise IndexError.

Abbreviation square := (Z * Z)%type.

Definition square_eqb (p q : square) : bool :=
  (fst p =? fst q) && (snd p =? snd q).

(** [p in l] for a list of squares. *)
Definition mem (p : square) (l : list square) : bool :=
  existsb (square_eqb p) l.

(** [l.remove(p)]: drops the first element equal to [p]. *)
Fixpoint remove_first (p : square) (l : list square) : list square :=
  match l with
  | [] => []
  | q :: l' => if square_eqb q p then l' else q :: remove_first p l'
  end.

(** ** app/move.py *)

Module Move.

Record t : Type := mk {
  source : square;
  target : square;
  promotion : option pyobj
}.

(** [_is_valid_position]; the [isinstance] tests hold by typing. *)
Definition _is_valid_position (pos : square) : bool :=
  let '(row, col) := pos in
  (0 <=? row) && (row <? 8) && (0 <=? col) && (col <? 8).

(** The third test of [__init__]:
    [promotion is not None and not isinstance(promotion, str)
     and promotion not in "qbnr"], evaluated left to right. *)
Definition promotion_rejected (promotion : option pyobj) : res bool :=
  match promotion with
  | None => Ok false
  | Some p =>
      if negb (isinstance_str p)
      then res_bind (py_in p "qbnr") (fun b => Ok (negb b))
      else Ok false
  end.

(** [Move.__init__]. *)
Definition init (source target : square) (promotion : option pyobj)
  : res t :=
  if negb (_is_valid_position source) then Raise (ValueError OutOfRange)
  else if negb (_is_valid_position target) then Raise (ValueError OutOfRange)
  else
    res_bind (promotion_rejected promotion) (fun bad =>
      if bad then Raise (ValueError InvalidPromotion)
      else Ok (mk source target promotion)).

(** [Move._algebraic_to_index]. *)
Definition _algebraic_to_index (sq : string) : res square :=
  match sq with
  | String file_char (String rank_char EmptyString) =>
      if negb (str_in (char_str (lower file_char)) "abcdefgh")
         || negb (str_in (char_str rank_char) "12345678")
      then Raise (ValueError MalformedNotation)
      else
        let col := ord (lower file_char) - ord "a"%char in
        let row := 8 - int_of_digit rank_char in
        Ok (row, col)
  | _ => Raise (ValueError MalformedNotation)   (* len(square) != 2 *)
  end.

(** [Move.from_algebraic]. *)
Definition from_algebraic (source target : string)
  (promotion : option pyobj) : res t :=
  res_bind (_algebraic_to_index source) (fun src =>
  res_bind (_algebraic_to_index target) (fun dst =>
    if negb (_is_valid_position src) then Raise (ValueError OutOfRange)
    else if negb (_is_valid_position dst) then Raise (ValueError OutOfRange)
    else init src dst promotion)).

End Move.

(** ** app/board.py *)

Module Board.

Abbreviation grid := (list (list ascii)).

Record t : Type := mk {
  board : grid;
  white_turn : bool;
  castling : gmap string bool;
  white_in_check : bool;
  black_in_check : bool;
  en_passant : option square;
  halfmove_clock : Z;
  fullmove_number : Z
}.

Definition set_board (g : grid) (b : t) : t :=
  mk g (white_turn b) (castling b) (white_in_check b) (black_in_check b)
     (en_passant b) (halfmove_clock b) (fullmove_number b).
Definition set_white_turn (w : bool) (b : t) : t :=
  mk (board b) w (castling b) (white_in_check b) (black_in_check b)
     (en_passant b) (halfmove_clock b) (fullmove_number b).
Definition set_castling (c : gmap string bool) (b : t) : t :=
  mk (board b) (white_turn b) c (white_in_check b) (black_in_check b)
     (en_passant b) (halfmove_clock b) (fullmove_number b).
Definition set_white_in_check (v : bool) (b : t) : t :=
  mk (board b) (white_turn b) (castling b) v (black_in_check b)
     (en_passant b) (halfmove_clock b) (fullmove_number b).
Definition set_black_in_check (v : bool) (b : t) : t :=
  mk (board b) (white_turn b) (castling b) (white_in_check b) v
     (en_passant b) (halfmove_clock b) (fullmove_number b).
Definition set_en_passant (e : option square) (b : t) : t :=
  mk (board b) (white_turn b) (castling b) (white_in_check b)
     (black_in_check b) e (halfmove_clock b) (fullmove_number b).
Definition set_halfmove_clock (n : Z) (b : t) : t :=
  mk (board b) (white_turn b) (castling b) (white_in_check b)
     (black_in_check b) (en_passant b) n (fullmove_number b).
Definition set_fullmove_number (n : Z) (b : t) : t :=
  mk (board b) (white_turn b) (castling b) (white_in_check b)
     (black_in_check b) (en_passant b) (halfmove_clock b) n.

(** [self.castling.get(key, False)] and [self.castling[key] = False]. *)
Definition castling_get (b : t) (key : string) : bool :=
  default false (castling b !! key).
Definition castling_clear (key : string) (b : t) : t :=
  set_castling (<[key := false]> (castling b)) b.

(** Methods that mutate [self]: the outcome and the board left behind. *)
Definition M (A : Type) : Type := t -> res A * t.

Definition ret {A : Type} (a : A) : M A := fun s => (Ok a, s).
Definition raise {A : Type} (e : exn) : M A := fun s => (Raise e, s).
Definition bind {A B : Type} (m : M A) (k : A -> M B) : M B :=
  fun s =>
    match m s with
    | (Ok a, s') => k a s'
    | (Raise e, s') => (Raise e, s')
    end.
Definition self : M t := fun s => (Ok s, s).
Definition modify (f : t -> t) : M unit := fun s => (Ok tt, f s).
Definition lift {A : Type} (r : res A) : M A := fun s => (r, s).

Declare Scope board_scope.
Delimit Scope board_scope with board.
Notation "x <- c1 ;; c2" := (bind c1 (fun x => c2))
  (at level 100, c1 at next level, right associativity) : board_scope.
Notation "c1 ;;; c2" := (bind c1 (fun _ => c2))
  (at level 100, right associativity) : board_scope.

(** [_default_board]. *)
Definition _default_board : grid :=
  [ ["r"; "n"; "b"; "q"; "k"; "b"; "n"; "r"];
    ["p"; "p"; "p"; "p"; "p"; "p"; "p"; "p"];
    repeat "." 8%nat;
    repeat "." 8%nat;
    repeat "." 8%nat;
    repeat "." 8%nat;
    ["P"; "P"; "P"; "P"; "P"; "P"; "P"; "P"];
    ["R"; "N"; "B"; "Q"; "K"; "B"; "N"; "R"] ]%char.

(** [Board.__init__]; [position or default] also takes the default
    for an empty list. *)
Definition init (position : option grid) : t :=
  let g := match position with
           | None | Some [] => _default_board
           | Some g => g
           end in
  mk g true
     (<["K" := true]> (<["Q" := true]> (<["k" := true]> (<["q" := true]> ∅))))
     false false None 0 1.

(** The class keeps an 8x8 grid. *)
Definition wf_grid (g : grid) : Prop :=
  length g = 8%nat /\ Forall (fun row => length row = 8%nat) g.

(** The helper [is_inside] of [get_valid_moves]. *)
Definition is_inside (r c : Z) : bool :=
  (0 <=? r) && (r <? 8) && (0 <=? c) && (c <? 8).

(** [self.board[r][c]] and [self.board[r][c] = x] as Python evaluates
    them. The rows are distinct list objects, as [_default_board] builds
    them, so a write to one row shows in no other. *)
Definition board_getitem (g : grid) (r c : Z) : res ascii :=
  res_bind (py_getitem g r) (fun row => py_getitem row c).

Definition board_setitem (g : grid) (r c : Z) (x : ascii) : res grid :=
  res_bind (py_getitem g r) (fun row =>
  res_bind (py_setitem row c x) (fun row' =>
  py_setitem g r row')).

(** The same read and write for a square of the 8x8 grid, where they
    raise nothing ([board_getitem_cell], [board_setitem_set_cell]).
    Every read and write of the methods below is at such a square: the
    squares of a [Move] are validated by its constructor, and the
    generated ones are guarded by [is_inside] or are constants. *)
Definition cell (g : grid) (pos : square) : ascii :=
  let '(r, c) := pos in
  if is_inside r c
  then match g !! Z.to_nat r with
       | Some row => default "."%char (row !! Z.to_nat c)
       | None => "."%char
       end
  else "."%char.

Definition set_cell (g : grid) (pos : square) (x : ascii) : grid :=
  let '(r, c) := pos in
  if is_inside r c
  then alter (fun row => <[Z.to_nat c := x]> row) (Z.to_nat r) g
  else g.

(** [make_raw_move] on the grid. *)
Definition raw_move (g : grid) (move : Move.t) : grid :=
  let piece := cell g (Move.source move) in
  let g1 := set_cell g (Move.source move) "."%char in
  set_cell g1 (Move.target move) piece.

Definition make_raw_move (move : Move.t) : M unit :=
  modify (fun b => set_board (raw_move (board b) move) b).

(** The squares in the order of [for i in range(8): for j in range(8)]. *)
Definition range8 : list Z := [0; 1; 2; 3; 4; 5; 6; 7].
Definition all_squares : list square :=
  flat_map (fun i => map (fun j => (i, j)) range8) range8.

(** [find]. *)
Definition find (g : grid) (piece : ascii) : list square :=
  filter (fun s => cell g s = piece) all_squares.

(** ** Move generation: lines 225-402 of [get_valid_moves] *)

(** One [while True] loop of the rook, bishop and queen branches, from
    the square [(r, c)] in direction [(dr, dc)]. The loop leaves the
    board after at most eight squares; [fuel] counts its iterations. *)
Fixpoint ray (fuel : nat) (g : grid) (is_white : bool)
  (r c dr dc : Z) : list square :=
  match fuel with
  | O => []
  | S fuel' =>
      let r := r + dr in
      let c := c + dc in
      if negb (is_inside r c) then []
      else
        let target := cell g (r, c) in
        if Ascii.eqb target "."
        then (r, c) :: ray fuel' g is_white r c dr dc
        else if negb (Bool.eqb (isupper target) is_white)
             then [(r, c)]
             else []
  end.

Definition rays (g : grid) (is_white : bool) (row col : Z)
  (directions : list (Z * Z)) : list square :=
  flat_map (fun d => ray 8 g is_white row col (fst d) (snd d)) directions.

(** The [for dr, dc in offsets] loop of the knight and king branches. *)
Definition steps (g : grid) (is_white : bool) (row col : Z)
  (offsets : list (Z * Z)) : list square :=
  flat_map (fun d =>
    let new_r := row + fst d in
    let new_c := col + snd d in
    if is_inside new_r new_c
    then
      let target := cell g (new_r, new_c) in
      if Ascii.eqb target "." || negb (Bool.eqb (isupper target) is_white)
      then [(new_r, new_c)] else []
    else []) offsets.

Definition knight_offsets : list (Z * Z) :=
  [(2, 1); (2, -1); (-2, 1); (-2, -1); (1, 2); (1, -2); (-1, 2); (-1, -2)].
Definition rook_directions : list (Z * Z) :=
  [(-1, 0); (1, 0); (0, -1); (0, 1)].
Definition bishop_directions : list (Z * Z) :=
  [(-1, -1); (-1, 1); (1, -1); (1, 1)].
Definition queen_directions : list (Z * Z) :=
  [(-1, 0); (1, 0); (0, -1); (0, 1); (-1, -1); (-1, 1); (1, -1); (1, 1)].
Definition king_offsets : list (Z * Z) :=
  [(-1, -1); (-1, 0); (-1, 1); (0, -1); (0, 1); (1, -1); (1, 0); (1, 1)].

(** The pawn branch. *)
Definition pawn_moves (b : t) (is_white : bool) (row col : Z)
  (attack_moves_only : bool) : list square :=
  let g := board b in
  let direction := if is_white then -1 else 1 in
  let start_row := if is_white then 6 else 1 in
  let advances :=
    if negb attack_moves_only
    then
      let forward := row + direction in
      if is_inside forward col && Ascii.eqb (cell g (forward, col)) "."
      then
        (forward, col) ::
        (if row =? start_row
         then
           let forward2 := row + 2 * direction in
           if is_inside forward2 col
              && Ascii.eqb (cell g (forward2, col)) "."
           then [(forward2, col)] else []
         else [])
      else []
    else [] in
  advances ++
  flat_map (fun dc =>
    let new_r := row + direction in
    let new_c := col + dc in
    if is_inside new_r new_c
    then
      let target := cell g (new_r, new_c) in
      (if negb (Ascii.eqb target ".")
          && negb (Bool.eqb (isupper target) is_white)
       then [(new_r, new_c)] else [])
      ++
      match en_passant b with
      | Some ep =>
          if (new_r =? fst ep) && (new_c =? snd ep)
          then [(new_r, new_c)] else []
      | None => []
      end
    else []) [-1; 1].

(** The castling part of the king branch. [attacked pos w] stands for
    [self.is_under_attack(pos, w)]. *)
Definition castling_moves (attacked : square -> bool -> bool) (b : t)
  (is_white : bool) (row col : Z) : list square :=
  let g := board b in
  if is_white && (row =? 7) && (col =? 4)
  then
    (if castling_get b "K"
        && Ascii.eqb (cell g (7, 5)) "."
        && Ascii.eqb (cell g (7, 6)) "."
        && Ascii.eqb (cell g (7, 7)) "R"
        && negb (attacked (7, 5) false)
        && negb (attacked (7, 6) false)
     then [(7, 6)] else [])
    ++
    (if castling_get b "Q"
        && Ascii.eqb (cell g (7, 3)) "."
        && Ascii.eqb (cell g (7, 2)) "."
        && Ascii.eqb (cell g (7, 1)) "."
        && Ascii.eqb (cell g (7, 0)) "R"
        && negb (attacked (7, 3) false)
        && negb (attacked (7, 2) false)
        && negb (attacked (7, 1) false)
     then [(7, 2)] else [])
  else if negb is_white && (row =? 0) && (col =? 4)
  then
    (if castling_get b "k"
        && Ascii.eqb (cell g (0, 5)) "."
        && Ascii.eqb (cell g (0, 6)) "."
        && Ascii.eqb (cell g (0, 7)) "r"
        && negb (attacked (0, 5) true)
        && negb (attacked (0, 6) true)
     then [(0, 6)] else [])
    ++
    (if castling_get b "q"
        && Ascii.eqb (cell g (0, 3)) "."
        && Ascii.eqb (cell g (0, 2)) "."
        && Ascii.eqb (cell g (0, 1)) "."
        && Ascii.eqb (cell g (0, 0)) "r"
        && negb (attacked (0, 3) true)
        && negb (attacked (0, 2) true)
        && negb (attacked (0, 1) true)
     then [(0, 2)] else [])
  else [].

(** The list [moves] as it stands when the pin section is reached.
    [get_valid_moves] calls [is_under_attack], which calls
    [get_all_valid_moves] and through it [get_valid_moves] again, with
    [attack_moves_only=True] and [validate_pin=False]; that inner call
    reaches neither the castling tests nor the pin section, so the
    recursion is two calls deep. [attacked] is the attack test the
    castling tests use. *)
Definition candidate_moves (attacked : square -> bool -> bool) (b : t)
  (pos : square) (attack_moves_only : bool) : list square :=
  let '(row, col) := pos in
  let g := board b in
  let piece := cell g (row, col) in
  if Ascii.eqb piece "." then []
  else
    let is_white := isupper piece in
    if Ascii.eqb (upper piece) "P"
    then pawn_moves b is_white row col attack_moves_only
    else if Ascii.eqb (upper piece) "N"
    then steps g is_white row col knight_offsets
    else if Ascii.eqb (upper piece) "R"
    then rays g is_white row col rook_directions
    else if Ascii.eqb (upper piece) "B"
    then rays g is_white row col bishop_directions
    else if Ascii.eqb (upper piece) "Q"
    then rays g is_white row col queen_directions
    else if Ascii.eqb (upper piece) "K"
    then
      steps g is_white row col king_offsets
      ++ (if negb attack_moves_only
          then castling_moves attacked b is_white row col
          else [])
    else [].

(** [get_valid_moves(pos, attack_moves_only=True, validate_pin=False)]:
    the inner call, which reads the board and raises nothing. *)
Definition attack_moves (b : t) (pos : square) : list square :=
  candidate_moves (fun _ _ => false) b pos true.

(** [get_all_valid_moves(attack_moves_only=True, validate_pins=False)],
    the dictionary in insertion order. *)
Definition get_all_valid_moves (b : t)
  : list (square * (ascii * list square)) :=
  map (fun s => (s, (cell (board b) s, attack_moves b s))) all_squares.

(** [is_under_attack]. *)
Definition is_under_attack (b : t) (pos : square)
  (white_is_attacking : bool) : bool :=
  existsb (fun kv =>
    let v := snd kv in
    Bool.eqb (isupper (fst v)) white_is_attacking && mem pos (snd v))
    (get_all_valid_moves b).

(** [in_check]: [self.find(piece)[0]] raises [IndexError] on a board
    without that king. *)
Definition in_check (b : t) (white : bool) : res bool :=
  let piece := (if white then "K" else "k")%char in
  res_bind (py_getitem (find (board b) piece) 0) (fun king_pos =>
    Ok (is_under_attack b king_pos (negb white))).

(** ** The pin section: lines 404-411 of [get_valid_moves] *)

(** [for move in moves:] over a list that the body shortens. Python
    keeps an index into the list: iteration [i] reads [moves[i]] from
    the list as it is then and stops when [i] is past its end. The
    test reads [self.board[row][col]] after the piece has left it. *)
Fixpoint pin_loop (fuel : nat) (pos : square) (i : nat)
  (moves : list square) : M (list square) :=
  match fuel with
  | O => ret moves
  | S fuel' =>
      match moves !! i with
      | None => ret moves
      | Some move =>
          (m1 <- lift (Move.init pos move None) ;;
           make_raw_move m1 ;;;
           b <- self ;;
           chk <- lift (in_check b (isupper (cell (board b) pos))) ;;
           let moves' := if chk then remove_first move moves else moves in
           m2 <- lift (Move.init move pos None) ;;
           make_raw_move m2 ;;;
           pin_loop fuel' pos (S i) moves')%board
      end
  end.

(** [get_valid_moves]. *)
Definition get_valid_moves (pos : square)
  (attack_moves_only validate_pin : bool) : M (list square) :=
  (b <- self ;;
   let moves :=
     candidate_moves (is_under_attack b) b pos attack_moves_only in
   if validate_pin
   then pin_loop (length moves) pos 0 moves
   else ret moves)%board.

(** ** [make_move] *)

Definition make_move (move : Move.t) : M unit :=
  let '(src_row, src_col) := Move.source move in
  let '(dst_row, dst_col) := Move.target move in
  let src := (src_row, src_col) in
  let dst := (dst_row, dst_col) in
  (valid_moves <- get_valid_moves (Move.source move) false true ;;
   b <- self ;;
   if negb (mem (Move.target move) valid_moves)
      || Ascii.eqb (cell (board b) src) "."
      || negb (Bool.eqb (isupper (cell (board b) src)) (white_turn b))
   then raise (ValueError IllegalMove)
   else
     (* Setting en passant target *)
     let pawn_start_row := if white_turn b then 6 else 1 in
     let pawn_two_move_row := if white_turn b then 4 else 3 in
     modify (set_en_passant
       (if Ascii.eqb (upper (cell (board b) src)) "P"
           && (src_row =? pawn_start_row)
           && (dst_row =? pawn_two_move_row)
        then Some (if white_turn b then src_row - 1 else src_row + 1,
                   src_col)
        else None)) ;;;
     (* Verifying castling rights *)
     king_pos <- lift (py_getitem
       (find (board b) (if white_turn b then "K" else "k")%char) 0) ;;
     (if square_eqb king_pos (Move.source move)
      then modify (castling_clear (if white_turn b then "K" else "k")) ;;;
           modify (castling_clear (if white_turn b then "Q" else "q"))
      else ret tt) ;;;
     let queen_rook_pos := if white_turn b then (7, 0) else (0, 0) in
     (if Ascii.eqb (upper (cell (board b) src)) "R"
         && square_eqb (Move.source move) queen_rook_pos
      then modify (castling_clear (if white_turn b then "Q" else "q"))
      else ret tt) ;;;
     let king_rook_pos := if white_turn b then (7, 7) else (0, 7) in
     (if Ascii.eqb (upper (cell (board b) src)) "R"
         && square_eqb (Move.source move) king_rook_pos
      then modify (castling_clear (if white_turn b then "K" else "k"))
      else ret tt) ;;;
     (* Applying the move *)
     make_raw_move move ;;;
     (* Player just moved so they must not be in check *)
     modify (fun s => if white_turn s then set_white_in_check false s
                      else set_black_in_check false s) ;;;
     (* Set the half move clock *)
     modify (fun s =>
       if Ascii.eqb (upper (cell (board s) src)) "P"
          || negb (Ascii.eqb (upper (cell (board s) dst)) ".")
       then set_halfmove_clock 0 s
       else set_halfmove_clock (halfmove_clock s + 1) s) ;;;
     (* Set the full move number *)
     modify (fun s => if negb (white_turn s)
                      then set_fullmove_number (fullmove_number s + 1) s
                      else s) ;;;
     (* Change the player's turn *)
     modify (fun s => set_white_turn (negb (white_turn s)) s) ;;;
     (* Check if the new player is in check *)
     s <- self ;;
     chk <- lift (in_check s (white_turn s)) ;;
     modify (if white_turn s then set_white_in_check chk
             else set_black_in_check chk))%board.

(** A caller that plays a list of moves on one board and carries on
    after a failed [make_move]. *)
Fixpoint play (moves : list Move.t) (b : t) : t :=
  match moves with
  | [] => b
  | m :: moves' => play moves' (snd (make_move m b))
  end.

End Board.

(** ** Vocabulary of the specification *)

Module Spec.
Import Board.

(** A square in algebraic text as the constructor accepts it: a file
    letter of either case and a rank digit, giving row = 8 - rank and
    column = offset of the lower-cased letter from 'a'. *)
Definition parse_square (s : string) : option square :=
  match s with
  | String f (String r EmptyString) =>
      if ((97 <=? ord f) && (ord f <=? 104)
          || (65 <=? ord f) && (ord f <=? 72))
         && (49 <=? ord r) && (ord r <=? 56)
      then Some (8 - (ord r - 48), ord (lower f) - 97)
      else None
  | _ => None
  end.

(** The same with the file letter in 'a'-'h' only. *)
Definition parse_square_lowercase (s : string) : option square :=
  match s with
  | String f (String r EmptyString) =>
      if (97 <=? ord f) && (ord f <=? 104)
         && (49 <=? ord r) && (ord r <=? 56)
      then Some (8 - (ord r - 48), ord f - 97)
      else None
  | _ => None
  end.

(** No castling flag goes from false to true. *)
Definition rights_le (after before : t) : Prop :=
  forall key, castling_get after key = true ->
              castling_get before key = true.

(** The move takes a pawn two rows along its file. *)
Definition two_square_pawn_advance (b : t) (m : Move.t) : bool :=
  Ascii.eqb (upper (cell (board b) (Move.source m))) "P"
  && (snd (Move.source m) =? snd (Move.target m))
  && (Z.abs (fst (Move.target m) - fst (Move.source m)) =? 2).

(** The square between source and target, in the source file. *)
Definition skipped_square (m : Move.t) : square :=
  ((fst (Move.source m) + fst (Move.target m)) / 2, snd (Move.source m)).

(** The grid holds exactly one king of the colour, and of each. *)
Definition one_king_of (g : grid) (white : bool) : Prop :=
  length (find g (if white then "K" else "k")%char) = 1%nat.
Definition one_king_each (g : grid) : Prop :=
  one_king_of g true /\ one_king_of g false.

(** Castling geometry of one colour and wing. *)
Definition home_row (is_white : bool) : Z := if is_white then 7 else 0.
Definition king_home (is_white : bool) : square := (home_row is_white, 4).
Definition rook_home (is_white kingside : bool) : square :=
  (home_row is_white, if kingside then 7 else 0).
Definition between_king_and_rook (is_white kingside : bool)
  : list square :=
  if kingside
  then [(home_row is_white, 5); (home_row is_white, 6)]
  else [(home_row is_white, 3); (home_row is_white, 2);
        (home_row is_white, 1)].
Definition right_key (is_white kingside : bool) : string :=
  match is_white, kingside with
  | true, true => "K"
  | true, false => "Q"
  | false, true => "k"
  | false, false => "q"
  end.
Definition rook_of (is_white : bool) : ascii :=
  (if is_white then "R" else "r")%char.

(** Flag set, squares between king and rook empty, rook at home. *)
Definition castling_path_clear (b : t) (is_white kingside : bool) : bool :=
  castling_get b (right_key is_white kingside)
  && forallb (fun s => Ascii.eqb (cell (board b) s) ".")
             (between_king_and_rook is_white kingside)
  && Ascii.eqb (cell (board b) (rook_home is_white kingside))
               (rook_of is_white).

(** The attack test as the code makes it: none of the squares between
    king and rook is attacked by the opponent. *)
Definition castling_available (b : t) (is_white kingside : bool) : bool :=
  castling_path_clear b is_white kingside
  && forallb (fun s => negb (is_under_attack b s (negb is_white)))
             (between_king_and_rook is_white kingside).

(** The condition in the words of the specification: the king on its
    home square, the path clear, and neither the king's square nor the
    square it passes over attacked; the square it lands on is not
    tested. *)
Definition claimed_castling_available (b : t) (is_white kingside : bool)
  : bool :=
  Ascii.eqb (cell (board b) (king_home is_white))
            (if is_white then "K" else "k")
  && castling_path_clear b is_white kingside
  && negb (is_under_attack b (king_home is_white) (negb is_white))
  && negb (is_under_attack b
             (home_row is_white, if kingside then 5 else 3)
             (negb is_white)).

End Spec.

(** ** Positions and moves used as examples *)

Module Examples.
Import Board.

Definition rows (l : list string) : grid := map list_ascii_of_string l.

Definition move (src dst : square) : Move.t := Move.mk src dst None.

Definition e2e4 : Move.t := move (6, 4) (4, 4).
Definition d7d5 : Move.t := move (1, 3) (3, 3).
Definition e4e6 : Move.t := move (4, 4) (2, 4).
Definition g1f3 : Move.t := move (7, 6) (5, 5).
Definition g8f6 : Move.t := move (0, 6) (2, 5).
Definition e4e5 : Move.t := move (4, 4) (3, 4).
Definition e5d6 : Move.t := move (3, 4) (2, 3).
Definition e1e2 : Move.t := move (7, 4) (6, 4).
Definition e7e5 : Move.t := move (1, 4) (3, 4).
Definition e1g1 : Move.t := move (7, 4) (7, 6).

(** After 1. e4 e5. *)
Definition after_e4_e5 : t := play [e2e4; e7e5] (init None).

(** After 1. e4 d5. *)
Definition after_e4_d5 : t := play [e2e4; d7d5] (init None).

(** After 1. e4 Nf6 2. e5 d5: the e5 pawn may take d6 in passing or
    the knight on f6. *)
Definition before_en_passant : t :=
  play [e2e4; g8f6; e4e5; d7d5] (init None).

(** A white king on e1 and a white pawn on e2, and no black king. *)
Definition no_black_king : t :=
  init (Some (rows [ "........"; "........"; "........"; "........";
                     "........"; "........"; "....P..."; "....K..." ])).

(** White knight on e2 shielding the king on e1 from a rook on e8. *)
Definition pinned_knight : t :=
  init (Some (rows [ "k...r..."; "........"; "........"; "........";
                     "........"; "........"; "....N..."; "....K..." ])).

(** White king on e1 attacked by a rook on e8; f1 and g1 are safe. *)
Definition castle_out_of_check : t :=
  init (Some (rows [ "k...r..."; "........"; "........"; "........";
                     "........"; "........"; "........"; "....K..R" ])).

(** The rook stands on g8 instead: only g1 is attacked. *)
Definition castle_into_check : t :=
  init (Some (rows [ "k.....r."; "........"; "........"; "........";
                     "........"; "........"; "........"; "....K..R" ])).

(** White may castle on the king's side: nothing attacks e1, f1, g1. *)
Definition castle_ready : t :=
  init (Some (rows [ "k......."; "........"; "........"; "........";
                     "........"; "........"; "........"; "....K..R" ])).

(** The black king on e8 in check from a rook on e1; of the moves of
    the knight on c6 only e5 and e7 block the check. *)
Definition black_in_check_position : t :=
  init (Some (rows [ "....k..."; "........"; "..n....."; "........";
                     "........"; "........"; "........"; "K...R..." ])).

End Examples.

(** ** The rest of app/board.py *)

Module BoardRest.
Import Board.

(** [Board.get]: [self.board[8 - rank][ord(file) - ord('a')]], with the
    indexing of Python lists. *)
Definition get (b : t) (rank : Z) (file : ascii) : res ascii :=
  board_getitem (board b) (8 - rank) (ord file - ord "a"%char).

(** The two nested [for] loops of [get_all_valid_moves] over the squares
    still to visit. Each entry reads [self.board[i][j]] and then calls
    [get_valid_moves], on the board as the earlier calls have left it. *)
Fixpoint all_moves_loop (squares : list square)
  (attack_moves_only validate_pins : bool)
  : M (list (square * (ascii * list square))) :=
  match squares with
  | [] => ret []
  | s :: rest =>
      (b <- self ;;
       let piece := cell (board b) s in
       moves <- get_valid_moves s attack_moves_only validate_pins ;;
       entries <- all_moves_loop rest attack_moves_only validate_pins ;;
       ret ((s, (piece, moves)) :: entries))%board
  end.

(** [get_all_valid_moves] with its two flags; the dictionary in
    insertion order. *)
Definition get_all_valid_moves (attack_moves_only validate_pins : bool)
  : M (list (square * (ascii * list square))) :=
  all_moves_loop all_squares attack_moves_only validate_pins.

End BoardRest.

(** ** More vocabulary *)

Module Geometry.
Import Board.

(** The square [k] steps from [pos] in direction [d]. *)
Definition along (pos : square) (d : Z * Z) (k : Z) : square :=
  (fst pos + k * fst d, snd pos + k * snd d).

(** Directions of the sliding pieces: along a row or file, along a
    diagonal. *)
Definition straight (d : Z * Z) : Prop := Z.abs (fst d) + Z.abs (snd d) = 1.
Definition diagonal (d : Z * Z) : Prop :=
  Z.abs (fst d) = 1 /\ Z.abs (snd d) = 1.

(** The directions of a rook, bishop or queen, by the upper-case letter
    of the piece. *)
Definition slides (letter : ascii) (d : Z * Z) : Prop :=
  (letter = "R"%char /\ straight d)
  \/ (letter = "B"%char /\ diagonal d)
  \/ (letter = "Q"%char /\ (straight d \/ diagonal d)).

(** A destination a piece of colour [is_white] may land on by its
    ordinary move: an empty square or one whose occupant has the other
    case. *)
Definition landable (g : grid) (is_white : bool) (d : square) : Prop :=
  cell g d = "."%char \/ isupper (cell g d) <> is_white.

(** The text of a square: file letter and rank digit. *)
Definition square_text (sq : square) : string :=
  String (ascii_of_N (Z.to_N (97 + snd sq)))
    (String (ascii_of_N (Z.to_N (56 - fst sq))) EmptyString).

End Geometry.

(** * Properties *)

Import Board.

(** ** Characters, squares and the grid *)

Lemma upper_dot (c : ascii) : Ascii.eqb (upper c) "." = Ascii.eqb c ".".
Proof.
  destruct c as [[] [] [] [] [] [] [] []]; vm_compute; reflexivity.
Qed.

Lemma square_eqb_eq (p q : square) : square_eqb p q = true <-> p = q.
Proof.
  destruct p as [a b], q as [c d]; unfold square_eqb; simpl.
  rewrite andb_true_iff, !Z.eqb_eq. split; [intros [-> ->] | intros [= -> ->]]; auto.
Qed.

Lemma is_inside_true (r c : Z) :
  is_inside r c = true <-> 0 <= r < 8 /\ 0 <= c < 8.
Proof. unfold is_inside. rewrite !andb_true_iff, !Z.leb_le, !Z.ltb_lt. lia. Qed.

Lemma wf_grid_lookup (g : grid) (r c : Z) :
  wf_grid g -> is_inside r c = true ->
  exists row x, g !! Z.to_nat r = Some row /\ row !! Z.to_nat c = Some x
                /\ length row = 8%nat.
Proof.
  intros [Hlen Hrows] [Hr Hc]%is_inside_true.
  destruct (lookup_lt_is_Some_2 g (Z.to_nat r)) as [row Hrow]; [lia |].
  assert (Hl : length row = 8%nat).
  { rewrite Forall_forall in Hrows. apply Hrows.
    eapply list_elem_of_lookup_2; eauto. }
  destruct (lookup_lt_is_Some_2 row (Z.to_nat c)) as [x Hx]; [lia |].
  eauto.
Qed.

Lemma wf_set_cell (g : grid) (p : square) (x : ascii) :
  wf_grid g -> wf_grid (set_cell g p x).
Proof.
  intros [Hlen Hrows]. destruct p as [r c]. unfold set_cell.
  destruct (is_inside r c); [| split; assumption].
  split.
  - by rewrite length_alter.
  - apply Forall_alter; [assumption |].
    intros row _ Hrow. by rewrite length_insert.
Qed.

Lemma cell_set_cell (g : grid) (p q : square) (x : ascii) :
  wf_grid g -> Move._is_valid_position p = true ->
  cell (set_cell g p x) q = if decide (q = p) then x else cell g q.
Proof.
  intros Hwf Hp. destruct p as [r c], q as [r' c'].
  change (is_inside r c = true) in Hp.
  unfold set_cell, cell. rewrite Hp.
  destruct (wf_grid_lookup g r c Hwf Hp) as (row & y & Hrow & Hy & Hl).
  apply is_inside_true in Hp.
  destruct (is_inside r' c') eqn:Hq.
  - apply is_inside_true in Hq.
    rewrite list_lookup_alter.
    destruct (decide (Z.to_nat r = Z.to_nat r')) as [Er | Er].
    + assert (r' = r) by lia. subst r'. rewrite Hrow. simpl.
      destruct (decide (c' = c)) as [-> | Ec].
      * rewrite list_lookup_insert_eq by lia.
        rewrite decide_True by reflexivity. reflexivity.
      * rewrite list_lookup_insert_ne by lia.
        rewrite decide_False by congruence. reflexivity.
    + rewrite decide_False by (intros [= ? ?]; lia). reflexivity.
  - rewrite decide_False; [reflexivity |].
    intros [= -> ->]. apply is_inside_true in Hp. congruence.
Qed.

Lemma py_getitem_lookup {A : Type} (l : list A) (i : Z) (x : A) :
  0 <= i -> l !! Z.to_nat i = Some x -> py_getitem l i = Ok x.
Proof.
  intros Hi Hx. unfold py_getitem.
  pose proof (lookup_lt_Some _ _ _ Hx) as Hlt.
  replace (i <? 0) with false by (symmetry; apply Z.ltb_ge; lia).
  replace (0 <=? i) with true by (symmetry; apply Z.leb_le; lia).
  replace (i <? Z.of_nat (length l)) with true
    by (symmetry; apply Z.ltb_lt; lia).
  simpl. rewrite Hx. reflexivity.
Qed.

Lemma board_getitem_cell (g : grid) (r c : Z) :
  wf_grid g -> is_inside r c = true ->
  board_getitem g r c = Ok (cell g (r, c)).
Proof.
  intros Hwf Hin.
  destruct (wf_grid_lookup g r c Hwf Hin) as (row & y & Hrow & Hy & _).
  unfold board_getitem, cell. rewrite Hin, Hrow, Hy. simpl.
  apply is_inside_true in Hin.
  rewrite (py_getitem_lookup g r row) by (lia || assumption). simpl.
  apply py_getitem_lookup; [lia | assumption].
Qed.

Lemma py_setitem_inside {A : Type} (l : list A) (i : Z) (x : A) :
  0 <= i < Z.of_nat (length l) ->
  py_setitem l i x = Ok (<[Z.to_nat i := x]> l).
Proof.
  intros Hi. unfold py_setitem.
  replace (i <? 0) with false by (symmetry; apply Z.ltb_ge; lia).
  replace (0 <=? i) with true by (symmetry; apply Z.leb_le; lia).
  replace (i <? Z.of_nat (length l)) with true
    by (symmetry; apply Z.ltb_lt; lia).
  reflexivity.
Qed.

Lemma board_setitem_set_cell (g : grid) (r c : Z) (x : ascii) :
  wf_grid g -> is_inside r c = true ->
  board_setitem g r c x = Ok (set_cell g (r, c) x).
Proof.
  intros Hwf Hin.
  destruct (wf_grid_lookup g r c Hwf Hin) as (row & y & Hrow & Hy & Hl).
  unfold board_setitem, set_cell. rewrite Hin.
  pose proof Hin as [Hr Hc]%is_inside_true.
  rewrite (py_getitem_lookup g r row) by (lia || assumption). simpl.
  rewrite py_setitem_inside by lia. simpl.
  destruct Hwf as [Hlen _].
  rewrite py_setitem_inside by lia. f_equal.
  apply list_eq. intros i.
  rewrite list_lookup_alter, list_lookup_insert.
  destruct (decide (Z.to_nat r = i)) as [<- | Hne].
  - rewrite Hrow. simpl. rewrite decide_True; [reflexivity |].
    split; [reflexivity | lia].
  - rewrite decide_False; [reflexivity | tauto].
Qed.


(** ** The generated squares are on the board *)

Lemma ray_inside (fuel : nat) (g : grid) (w : bool) (dr dc : Z) :
  forall (r c : Z) (d : square),
    In d (ray fuel g w r c dr dc) -> Move._is_valid_position d = true.
Proof.
  induction fuel as [| fuel IH]; intros r c d; simpl; [tauto |].
  destruct (is_inside (r + dr) (c + dc)) eqn:Hin; simpl; [| tauto].
  destruct (Ascii.eqb _ _).
  - intros [<- | Hd]; [exact Hin | eauto].
  - destruct (negb _); simpl; [| tauto].
    intros [<- | []]. exact Hin.
Qed.

Lemma rays_inside (g : grid) (w : bool) (row col : Z)
  (dirs : list (Z * Z)) (d : square) :
  In d (rays g w row col dirs) -> Move._is_valid_position d = true.
Proof.
  unfold rays. rewrite in_flat_map. intros (x & _ & Hd).
  eapply ray_inside; eauto.
Qed.

Lemma steps_inside (g : grid) (w : bool) (row col : Z)
  (offs : list (Z * Z)) (d : square) :
  In d (steps g w row col offs) -> Move._is_valid_position d = true.
Proof.
  unfold steps. rewrite in_flat_map. intros (x & _ & Hd).
  destruct (is_inside _ _) eqn:Hin; [| destruct Hd].
  destruct (_ || _); [| destruct Hd].
  destruct Hd as [<- | []]. exact Hin.
Qed.

Lemma pawn_moves_inside (b : t) (w : bool) (row col : Z) (ao : bool)
  (d : square) :
  In d (pawn_moves b w row col ao) -> Move._is_valid_position d = true.
Proof.
  unfold pawn_moves. rewrite in_app_iff, in_flat_map.
  intros [Hd | (dc & _ & Hd)].
  - destruct (negb ao); [| destruct Hd].
    destruct (is_inside _ col && _) eqn:H1; [| destruct Hd].
    apply andb_true_iff in H1 as [H1 _].
    destruct Hd as [<- | Hd]; [exact H1 |].
    destruct (row =? _); [| destruct Hd].
    destruct (is_inside _ col && _) eqn:H2; [| destruct Hd].
    apply andb_true_iff in H2 as [H2 _].
    destruct Hd as [<- | []]. exact H2.
  - destruct (is_inside _ _) eqn:Hin; [| destruct Hd].
    apply in_app_iff in Hd as [Hd | Hd].
    + destruct (_ && _); [| destruct Hd].
      destruct Hd as [<- | []]. exact Hin.
    + destruct (en_passant b) as [ep |]; [| destruct Hd].
      destruct (_ && _); [| destruct Hd].
      destruct Hd as [<- | []]. exact Hin.
Qed.

Lemma castling_moves_inside (att : square -> bool -> bool) (b : t)
  (w : bool) (row col : Z) (d : square) :
  In d (castling_moves att b w row col) -> Move._is_valid_position d = true.
Proof.
  unfold castling_moves.
  repeat match goal with
         | |- context [if ?c then _ else _] => destruct c
         end; simpl; intuition (subst; reflexivity).
Qed.

Lemma candidate_moves_inside (att : square -> bool -> bool) (b : t)
  (pos : square) (ao : bool) (d : square) :
  In d (candidate_moves att b pos ao) -> Move._is_valid_position d = true.
Proof.
  destruct pos as [row col]. unfold candidate_moves.
  destruct (Ascii.eqb (cell _ _) "."); [intros [] |].
  destruct (Ascii.eqb _ "P"); [apply pawn_moves_inside |].
  destruct (Ascii.eqb _ "N"); [apply steps_inside |].
  destruct (Ascii.eqb _ "R"); [apply rays_inside |].
  destruct (Ascii.eqb _ "B"); [apply rays_inside |].
  destruct (Ascii.eqb _ "Q"); [apply rays_inside |].
  destruct (Ascii.eqb _ "K"); [| intros []].
  rewrite in_app_iff. intros [Hd | Hd]; [eapply steps_inside; eauto |].
  destruct (negb ao); [| destruct Hd].
  eapply castling_moves_inside; eauto.
Qed.

(** ** The loops terminate within their fuel *)

Lemma ray_more_fuel (g : grid) (w : bool) (dr dc : Z) :
  (dr <> 0 \/ dc <> 0) -> -1 <= dr <= 1 -> -1 <= dc <= 1 ->
  forall (n k : nat) (r c : Z),
    is_inside r c = true ->
    (if dr =? 1 then 7 - r else if dr =? -1 then r
     else if dc =? 1 then 7 - c else c) <= Z.of_nat n ->
    ray (n + k) g w r c dr dc = ray n g w r c dr dc.
Proof.
  intros Hnz Hdr Hdc. induction n as [| n IH]; intros k r c Hin Hrem.
  - apply is_inside_true in Hin. simpl.
    destruct k as [| k]; [reflexivity |]. simpl.
    replace (is_inside (r + dr) (c + dc)) with false; [reflexivity |].
    symmetry. apply not_true_is_false. rewrite is_inside_true.
    destruct (Z.eqb_spec dr 1); [lia |].
    destruct (Z.eqb_spec dr (-1)); [lia |].
    destruct (Z.eqb_spec dc 1); lia.
  - simpl. destruct (is_inside (r + dr) (c + dc)) eqn:Hin'; [| reflexivity].
    simpl. destruct (Ascii.eqb _ _); [| reflexivity].
    f_equal. apply IH; [exact Hin' |].
    destruct (Z.eqb_spec dr 1); [lia |].
    destruct (Z.eqb_spec dr (-1)); [lia |].
    destruct (Z.eqb_spec dc 1); lia.
Qed.

(** Eight iterations are all a ray needs, from any starting square:
    more fuel gives the same squares. *)
Lemma ray_fuel_enough (g : grid) (w : bool) (r c dr dc : Z) (n : nat) :
  (dr <> 0 \/ dc <> 0) -> -1 <= dr <= 1 -> -1 <= dc <= 1 ->
  (8 <= n)%nat ->
  ray n g w r c dr dc = ray 8 g w r c dr dc.
Proof.
  intros Hnz Hdr Hdc Hn.
  destruct n as [| n]; [lia |].
  cbn [ray].
  destruct (is_inside (r + dr) (c + dc)) eqn:Hin; [| reflexivity].
  cbn [negb]. destruct (Ascii.eqb _ _); [| reflexivity].
  f_equal. replace n with (7 + (n - 7))%nat by lia.
  apply ray_more_fuel; try assumption.
  apply is_inside_true in Hin.
  destruct (Z.eqb_spec dr 1); [lia |].
  destruct (Z.eqb_spec dr (-1)); [lia |].
  destruct (Z.eqb_spec dc 1); lia.
Qed.

Lemma Move_init_None (p q : square) (m : Move.t) :
  Move.init p q None = Ok m <->
  Move._is_valid_position p = true /\ Move._is_valid_position q = true
  /\ m = Move.mk p q None.
Proof.
  unfold Move.init.
  destruct (Move._is_valid_position p), (Move._is_valid_position q);
    simpl; split; try (intros [= <-]; auto); try (intros (? & ? & ->));
    auto; try discriminate; intuition discriminate.
Qed.

Lemma pin_loop_step (fuel : nat) (pos : square) (i : nat)
  (moves : list square) (b : t) :
  pin_loop (S fuel) pos i moves b =
  match moves !! i with
  | None => (Ok moves, b)
  | Some move =>
      match Move.init pos move None with
      | Raise e => (Raise e, b)
      | Ok m1 =>
          let b1 := set_board (raw_move (board b) m1) b in
          match in_check b1 (isupper (cell (board b1) pos)) with
          | Raise e => (Raise e, b1)
          | Ok chk =>
              match Move.init move pos None with
              | Raise e => (Raise e, b1)
              | Ok m2 =>
                  pin_loop fuel pos (S i)
                    (if chk then remove_first move moves else moves)
                    (set_board (raw_move (board b1) m2) b1)
              end
          end
      end
  end.
Proof.
  cbn [pin_loop]. destruct (moves !! i) as [move |]; [| reflexivity].
  unfold bind, lift, make_raw_move, modify, self.
  destruct (Move.init pos move None); [| reflexivity].
  cbn zeta. destruct (in_check _ _); [| reflexivity].
  destruct (Move.init move pos None); reflexivity.
Qed.

Lemma length_remove_first (p : square) (l : list square) :
  (length (remove_first p l) <= length l)%nat.
Proof.
  induction l as [| q l IH]; simpl; [lia |].
  destruct (square_eqb q p); simpl; lia.
Qed.

Lemma remove_first_subset (p x : square) (l : list square) :
  In x (remove_first p l) -> In x l.
Proof.
  induction l as [| q l IH]; simpl; [tauto |].
  destruct (square_eqb q p); simpl; tauto.
Qed.

(** The loop over [moves] ends by running past the end of the list,
    never by the bound on its iterations. *)
Lemma pin_loop_fuel_enough (pos : square) :
  forall (fuel k i : nat) (moves : list square) (b : t),
    (length moves - i <= fuel)%nat ->
    pin_loop (fuel + k) pos i moves b = pin_loop fuel pos i moves b.
Proof.
  induction fuel as [| fuel IH]; intros k i moves b Hlen.
  - assert (Hnone : moves !! i = None) by (apply lookup_ge_None; lia).
    destruct k as [| k]; [reflexivity |].
    cbn [Nat.add]. rewrite pin_loop_step, Hnone. reflexivity.
  - cbn [Nat.add]. rewrite !pin_loop_step.
    destruct (moves !! i) as [move |]; [| reflexivity].
    destruct (Move.init pos move None); [| reflexivity].
    cbn zeta. destruct (in_check _ _) as [chk |]; [| reflexivity].
    destruct (Move.init move pos None); [| reflexivity].
    apply IH. destruct chk; [pose proof (length_remove_first move moves) |]; lia.
Qed.

(** ** What the pin section does to the board *)

Lemma wf_raw_move (g : grid) (m : Move.t) :
  wf_grid g -> wf_grid (raw_move g m).
Proof. intros Hwf. unfold raw_move. by do 2 apply wf_set_cell. Qed.

Lemma cell_raw_move (g : grid) (m : Move.t) (s : square) :
  wf_grid g ->
  Move._is_valid_position (Move.source m) = true ->
  Move._is_valid_position (Move.target m) = true ->
  cell (raw_move g m) s =
  if decide (s = Move.target m) then cell g (Move.source m)
  else if decide (s = Move.source m) then "."%char
  else cell g s.
Proof.
  intros Hwf Hs Ht. unfold raw_move.
  rewrite cell_set_cell by (try apply wf_set_cell; assumption).
  destruct (decide (s = Move.target m)); [reflexivity |].
  by rewrite cell_set_cell.
Qed.

(** A probe and its undo: the piece is back on [pos], the probed square
    is empty whatever stood there, and no other square has changed. *)
Lemma cell_probe_undo (g : grid) (pos move s : square) :
  wf_grid g ->
  Move._is_valid_position pos = true ->
  Move._is_valid_position move = true ->
  cell (raw_move (raw_move g (Move.mk pos move None))
                 (Move.mk move pos None)) s =
  if decide (s = pos) then cell g pos
  else if decide (s = move) then "."%char
  else cell g s.
Proof.
  intros Hwf Hp Hm.
  rewrite cell_raw_move by (try apply wf_raw_move; assumption).
  rewrite !cell_raw_move by assumption. simpl.
  repeat case_decide; congruence.
Qed.

(** What the test of the pin section reads: once the piece has gone to
    another square, its own square is empty, and an empty square is not
    upper case. *)
Lemma probe_reads_empty_square (g : grid) (pos move : square) :
  wf_grid g ->
  Move._is_valid_position pos = true ->
  Move._is_valid_position move = true ->
  move <> pos ->
  isupper (cell (raw_move g (Move.mk pos move None)) pos) = false.
Proof.
  intros Hwf Hp Hm Hne. rewrite cell_raw_move by assumption. simpl.
  rewrite decide_False by congruence. by rewrite decide_True.
Qed.

(** The pin section touches no attribute but [self.board], however it
    ends. *)
Lemma pin_loop_fields (pos : square) :
  forall (fuel i : nat) (moves : list square) (b b' : t)
         (r : res (list square)),
    pin_loop fuel pos i moves b = (r, b') ->
    b' = set_board (board b') b.
Proof.
  induction fuel as [| fuel IH]; intros i moves b b' r.
  - intros [= <- <-]. by destruct b.
  - rewrite pin_loop_step.
    destruct (moves !! i) as [move |];
      [| intros [= <- <-]; by destruct b].
    destruct (Move.init pos move None);
      [| intros [= <- <-]; by destruct b].
    cbn zeta. destruct (in_check _ _) as [chk |];
      [| intros [= <- <-]; by destruct b].
    destruct (Move.init move pos None);
      [| intros [= <- <-]; by destruct b].
    intros H. apply IH in H. rewrite H. by destruct b.
Qed.

(** The destinations that survive the pin section were candidates. *)
Lemma pin_loop_subset (pos : square) :
  forall (fuel i : nat) (moves res : list square) (b b' : t),
    pin_loop fuel pos i moves b = (Ok res, b') ->
    forall x, In x res -> In x moves.
Proof.
  induction fuel as [| fuel IH]; intros i moves res b b'.
  - intros [= <- <-]. auto.
  - rewrite pin_loop_step.
    destruct (moves !! i) as [move |]; [| intros [= <- <-]; auto].
    destruct (Move.init pos move None); [| discriminate].
    cbn zeta. destruct (in_check _ _) as [chk |]; [| discriminate].
    destruct (Move.init move pos None); [| discriminate].
    intros H x Hx. eapply IH in H; [| exact Hx].
    destruct chk; [eapply remove_first_subset |]; eauto.
Qed.

(** When the pin section runs to its end on an 8x8 grid, the piece
    stands on [pos] again and every other square holds what it held or
    has been emptied. *)
Lemma pin_loop_frame (pos : square) :
  forall (fuel i : nat) (moves res : list square) (b b' : t),
    wf_grid (board b) ->
    pin_loop fuel pos i moves b = (Ok res, b') ->
    wf_grid (board b')
    /\ cell (board b') pos = cell (board b) pos
    /\ forall s, cell (board b') s = cell (board b) s
                 \/ cell (board b') s = "."%char.
Proof.
  induction fuel as [| fuel IH]; intros i moves res b b' Hwf.
  - intros [= <- <-]. auto.
  - rewrite pin_loop_step.
    destruct (moves !! i) as [move |]; [| intros [= <- <-]; auto].
    destruct (Move.init pos move None) as [m1 |] eqn:H1; [| discriminate].
    cbn zeta. destruct (in_check _ _) as [chk |]; [| discriminate].
    destruct (Move.init move pos None) as [m2 |] eqn:H2; [| discriminate].
    apply Move_init_None in H1 as (Hp & Hm & ->).
    apply Move_init_None in H2 as (_ & _ & ->).
    intros H. apply IH in H; [| simpl; by do 2 apply wf_raw_move].
    destruct H as (Hwf' & Hpos & Hfr). simpl in Hpos, Hfr.
    split; [exact Hwf' |]. split.
    + rewrite Hpos, cell_probe_undo by assumption.
      by rewrite decide_True.
    + intros s. destruct (Hfr s) as [Hs | Hs]; [| by right].
      rewrite Hs, cell_probe_undo by assumption.
      destruct (decide (s = pos)) as [-> | ?]; [by left |].
      destruct (decide (s = move)); [by right | by left].
Qed.

(** The pin section changes no square outside the list it walks. *)
Lemma pin_loop_untouched (pos : square) :
  forall (fuel i : nat) (moves res : list square) (b b' : t),
    wf_grid (board b) ->
    pin_loop fuel pos i moves b = (Ok res, b') ->
    forall s, ~ In s moves -> cell (board b') s = cell (board b) s.
Proof.
  induction fuel as [| fuel IH]; intros i moves res b b' Hwf.
  - intros [= <- <-]. auto.
  - rewrite pin_loop_step.
    destruct (moves !! i) as [move |] eqn:Hi; [| intros [= <- <-]; auto].
    destruct (Move.init pos move None) as [m1 |] eqn:H1; [| discriminate].
    cbn zeta. destruct (in_check _ _) as [chk |]; [| discriminate].
    destruct (Move.init move pos None) as [m2 |] eqn:H2; [| discriminate].
    apply Move_init_None in H1 as (Hp & Hm & ->).
    apply Move_init_None in H2 as (_ & _ & ->).
    intros H s Hs.
    assert (Hmove : In move moves).
    { apply list_elem_of_In. eapply list_elem_of_lookup_2; eauto. }
    apply IH with (s := s) in H; [| simpl; by do 2 apply wf_raw_move |].
    + rewrite H. simpl. rewrite cell_probe_undo by assumption.
      destruct (decide (s = pos)) as [-> | ?]; [reflexivity |].
      destruct (decide (s = move)) as [-> | ?]; [contradiction | reflexivity].
    + intros Hs'. apply Hs.
      destruct chk; [eapply remove_first_subset |]; eauto.
Qed.


(** ** [get_valid_moves] and [make_move], step by step *)

Lemma get_valid_moves_unfold (pos : square) (ao vp : bool) (b : t) :
  get_valid_moves pos ao vp b =
  let moves := candidate_moves (is_under_attack b) b pos ao in
  if vp then pin_loop (length moves) pos 0 moves b else (Ok moves, b).
Proof. unfold get_valid_moves, bind, self. by destruct vp. Qed.

Lemma get_valid_moves_fields (pos : square) (ao vp : bool) (b b' : t)
  (r : res (list square)) :
  get_valid_moves pos ao vp b = (r, b') -> b' = set_board (board b') b.
Proof.
  rewrite get_valid_moves_unfold. cbn zeta. destruct vp.
  - apply pin_loop_fields.
  - intros [= <- <-]. by destruct b.
Qed.

Lemma get_valid_moves_subset (pos : square) (ao vp : bool) (b b' : t)
  (moves : list square) :
  get_valid_moves pos ao vp b = (Ok moves, b') ->
  forall x, In x moves ->
            In x (candidate_moves (is_under_attack b) b pos ao).
Proof.
  rewrite get_valid_moves_unfold. cbn zeta. destruct vp.
  - apply pin_loop_subset.
  - intros [= <- <-]. auto.
Qed.

Lemma get_valid_moves_frame (pos : square) (ao vp : bool) (b b' : t)
  (moves : list square) :
  wf_grid (board b) ->
  get_valid_moves pos ao vp b = (Ok moves, b') ->
  wf_grid (board b')
  /\ cell (board b') pos = cell (board b) pos
  /\ forall s, cell (board b') s = cell (board b) s
               \/ cell (board b') s = "."%char.
Proof.
  intros Hwf. rewrite get_valid_moves_unfold. cbn zeta. destruct vp.
  - by apply pin_loop_frame.
  - intros [= <- <-]. auto.
Qed.

(** Reduces the projections and setters of the board record, and
    nothing else. *)
Ltac board_fields :=
  cbn [fst snd board white_turn castling white_in_check black_in_check
       en_passant halfmove_clock fullmove_number set_board set_white_turn
       set_castling set_white_in_check set_black_in_check set_en_passant
       set_halfmove_clock set_fullmove_number castling_clear negb].

Lemma make_move_Ok (m : Move.t) (b b' : t) :
  make_move m b = (Ok tt, b') ->
  exists (moves : list square) (b1 : t) (king_pos : square) (chk : bool),
    let src := Move.source m in
    let dst := Move.target m in
    let w := white_turn b1 in
    let piece := cell (board b1) src in
    get_valid_moves src false true b = (Ok moves, b1)
    /\ mem dst moves = true
    /\ Ascii.eqb piece "." = false
    /\ isupper piece = w
    /\ py_getitem (find (board b1) (if w then "K" else "k")%char) 0
       = Ok king_pos
    /\ board b' = raw_move (board b1) m
    /\ white_turn b' = negb w
    /\ en_passant b' =
         (if Ascii.eqb (upper piece) "P"
             && (fst src =? (if w then 6 else 1))
             && (fst dst =? (if w then 4 else 3))
          then Some (if w then fst src - 1 else fst src + 1, snd src)
          else None)
    /\ castling b' =
         (let c1 := if square_eqb king_pos src
                    then <[(if w then "Q" else "q")%string := false]>
                           (<[(if w then "K" else "k")%string := false]>
                              (castling b1))
                    else castling b1 in
          let c2 := if Ascii.eqb (upper piece) "R"
                       && square_eqb src (if w then (7, 0) else (0, 0))
                    then <[(if w then "Q" else "q")%string := false]> c1
                    else c1 in
          if Ascii.eqb (upper piece) "R"
             && square_eqb src (if w then (7, 7) else (0, 7))
          then <[(if w then "K" else "k")%string := false]> c2
          else c2)
    /\ halfmove_clock b' =
         (if Ascii.eqb (upper (cell (board b') src)) "P"
             || negb (Ascii.eqb (upper (cell (board b') dst)) ".")
          then 0 else halfmove_clock b1 + 1)
    /\ fullmove_number b' =
         (if negb w then fullmove_number b1 + 1 else fullmove_number b1).
Proof.
  destruct m as [[sr sc] [dr dc] promo]. unfold make_move.
  cbn [Move.source Move.target fst snd].
  unfold bind at 1.
  destruct (get_valid_moves _ _ _ b) as [[moves |] b1] eqn:Hgv;
    [| discriminate].
  unfold bind at 1. unfold self at 1.
  destruct (negb (mem (dr, dc) moves) || _ || _) eqn:Hval;
    [discriminate |].
  apply orb_false_iff in Hval as [Hval Hcol].
  apply orb_false_iff in Hval as [Hmem Hdot].
  apply negb_false_iff in Hmem. apply negb_false_iff in Hcol.
  apply eqb_prop in Hcol.
  unfold bind at 1. unfold modify at 1.
  unfold bind at 1. unfold lift at 1. cbn [white_turn set_en_passant board].
  destruct (py_getitem _ 0) as [king_pos |] eqn:Hking; [| discriminate].
  intros H.
  exists moves, b1, king_pos.
  cbn zeta.
  revert H.
  unfold make_raw_move, bind, modify, ret, self, lift.
  destruct b1 as [g w c wc bc ep hc fn].
  cbn [board white_turn castling halfmove_clock fullmove_number] in *.
  destruct w.
  all: destruct (square_eqb king_pos (sr, sc));
    destruct (Ascii.eqb (upper (cell g (sr, sc))) "R" && _);
    destruct (Ascii.eqb (upper (cell g (sr, sc))) "R" && _);
    board_fields;
    destruct (Ascii.eqb (upper (cell (raw_move g _) (sr, sc))) "P" || _)
      eqn:Hclock;
    board_fields;
    destruct (in_check _ _) as [chk |]; try discriminate;
    intros [= <-]; exists chk;
    board_fields;
    rewrite ?Hclock; repeat split; auto.
Qed.

(** The squares a successful [make_move] can change: the source, the
    target, and the candidate destinations of the moved piece. *)
Lemma make_move_frame (b b' : t) (m : Move.t) (s : square) :
  wf_grid (board b) ->
  Move._is_valid_position (Move.source m) = true ->
  Move._is_valid_position (Move.target m) = true ->
  make_move m b = (Ok tt, b') ->
  s <> Move.source m -> s <> Move.target m ->
  ~ In s (candidate_moves (is_under_attack b) b (Move.source m) false) ->
  cell (board b') s = cell (board b) s.
Proof.
  intros Hwf Hsrc Hdst Hmv Hns Hnt Hnc.
  destruct (make_move_Ok _ _ _ Hmv)
    as (moves & b1 & kp & chk & Hgv & _ & _ & _ & _ & Hboard & _).
  cbv zeta in *.
  destruct (get_valid_moves_frame _ _ _ _ _ _ Hwf Hgv) as (Hwf1 & _ & _).
  rewrite Hboard, cell_raw_move by assumption.
  rewrite !decide_False by assumption.
  rewrite get_valid_moves_unfold in Hgv. cbn zeta in Hgv.
  eapply pin_loop_untouched; eauto.
Qed.


(** ** Move construction *)

(** [__init__] raises the promotion error for no input at all: a [str]
    fails the [isinstance] conjunct, and any other object makes the
    membership test raise [TypeError]. *)
Lemma init_never_InvalidPromotion (src dst : square) (p : option pyobj) :
  Move.init src dst p <> Raise (ValueError InvalidPromotion).
Proof.
  unfold Move.init.
  destruct (Move._is_valid_position src); [| discriminate].
  destruct (Move._is_valid_position dst); [| discriminate].
  destruct p as [[s | n] |]; simpl; discriminate.
Qed.

Lemma init_str_promotion (src dst : square) (s : string) :
  Move._is_valid_position src = true ->
  Move._is_valid_position dst = true ->
  Move.init src dst (Some (PyStr s)) = Ok (Move.mk src dst (Some (PyStr s))).
Proof. intros Hs Hd. unfold Move.init. rewrite Hs, Hd. reflexivity. Qed.

(** C7: a promotion text that is none of 'q', 'b', 'n', 'r' is accepted:
    the pawn move e7-e8 with promotion 'k' builds a move and raises
    nothing. *)
Theorem init_accepts_unknown_promotion :
  Move.init (1, 4) (0, 4) (Some (PyStr "k"))
  = Ok (Move.mk (1, 4) (0, 4) (Some (PyStr "k")))
  /\ str_in "k" "qbnr" = false.
Proof. split; reflexivity. Qed.

Lemma file_char_accepted (c : ascii) :
  str_in (char_str (lower c)) "abcdefgh"
  = ((97 <=? ord c) && (ord c <=? 104) || (65 <=? ord c) && (ord c <=? 72)).
Proof. destruct c as [[] [] [] [] [] [] [] []]; reflexivity. Qed.

Lemma rank_char_accepted (c : ascii) :
  str_in (char_str c) "12345678" = ((49 <=? ord c) && (ord c <=? 56)).
Proof. destruct c as [[] [] [] [] [] [] [] []]; reflexivity. Qed.

Lemma lower_file_offset (c : ascii) :
  (97 <=? ord c) && (ord c <=? 104) || (65 <=? ord c) && (ord c <=? 72)
  = true ->
  0 <= ord (lower c) - 97 < 8.
Proof.
  destruct c as [[] [] [] [] [] [] [] []]; vm_compute;
    (discriminate || (intros _; split; [discriminate | reflexivity])).
Qed.

(** [_algebraic_to_index] against the accepted squares. *)
Lemma algebraic_to_index_spec (s : string) :
  Move._algebraic_to_index s =
  match Spec.parse_square s with
  | Some sq => Ok sq
  | None => Raise (ValueError MalformedNotation)
  end.
Proof.
  destruct s as [| f [| r [| x s]]]; try reflexivity.
  unfold Move._algebraic_to_index, Spec.parse_square.
  rewrite file_char_accepted, rank_char_accepted.
  destruct ((97 <=? ord f) && (ord f <=? 104) || _);
    destruct (49 <=? ord r); destruct (ord r <=? 56); reflexivity.
Qed.

Lemma parse_square_valid (s : string) (sq : square) :
  Spec.parse_square s = Some sq -> Move._is_valid_position sq = true.
Proof.
  destruct s as [| f [| r [| x s]]]; try discriminate.
  unfold Spec.parse_square.
  destruct ((97 <=? ord f) && (ord f <=? 104) || _) eqn:Hf; [| discriminate].
  simpl. destruct (49 <=? ord r) eqn:H1; [| discriminate].
  destruct (ord r <=? 56) eqn:H2; [| discriminate].
  intros [= <-]. apply lower_file_offset in Hf.
  apply Z.leb_le in H1. apply Z.leb_le in H2.
  apply (is_inside_true (8 - (ord r - 48)) (ord (lower f) - 97)). lia.
Qed.

(** C8, as the code has it: the constructor fails with the notation
    error exactly when an endpoint is not two characters, its file
    letter is outside 'a'-'h' and 'A'-'H', or its rank digit is outside
    '1'-'8'; otherwise it builds the move with row = 8 - rank digit and
    column = offset of the lower-cased file letter from 'a'. The
    promotion is absent or a string. *)
Theorem from_algebraic_spec (source target : string) (p : option pyobj) :
  (forall n, p <> Some (PyInt n)) ->
  (Move.from_algebraic source target p = Raise (ValueError MalformedNotation)
   <-> Spec.parse_square source = None \/ Spec.parse_square target = None)
  /\ (forall src dst,
        Spec.parse_square source = Some src ->
        Spec.parse_square target = Some dst ->
        Move.from_algebraic source target p = Ok (Move.mk src dst p)).
Proof.
  intros Hp. unfold Move.from_algebraic.
  rewrite !algebraic_to_index_spec.
  assert (Hinit : forall a b, Move._is_valid_position a = true ->
                              Move._is_valid_position b = true ->
                              Move.init a b p = Ok (Move.mk a b p)).
  { intros a b Ha Hb. unfold Move.init. rewrite Ha, Hb.
    destruct p as [[s | n] |]; [reflexivity | | reflexivity].
    exfalso. by apply (Hp n). }
  destruct (Spec.parse_square source) as [src |] eqn:Hs; simpl.
  - destruct (Spec.parse_square target) as [dst |] eqn:Ht; simpl.
    + rewrite (parse_square_valid _ _ Hs), (parse_square_valid _ _ Ht).
      simpl. rewrite Hinit by eauto using parse_square_valid.
      split.
      * split; [discriminate | intros [? | ?]; discriminate].
      * intros a b' [= <-] [= <-]. reflexivity.
    + split; [split; auto | intros a b' _ [=]].
  - split; [split; auto | intros a b' [=]].
Qed.

Lemma from_algebraic_spec_witness :
  Move.from_algebraic "e2" "E4" None = Ok (Move.mk (6, 4) (4, 4) None).
Proof.
  apply (from_algebraic_spec "e2" "E4" None); [discriminate | |]; reflexivity.
Defined.

(** C8 as stated fails: the file letter 'E' is outside 'a'-'h', yet the
    constructor builds the move e2-e4 from "E2" and "E4". *)
Lemma from_algebraic_accepts_uppercase :
  Spec.parse_square_lowercase "E2" = None
  /\ Move.from_algebraic "E2" "E4" None = Ok (Move.mk (6, 4) (4, 4) None).
Proof. split; reflexivity. Qed.

(** ** Destinations stay on the board *)

Lemma get_valid_moves_no_pin_total (pos : square) (ao : bool) (b : t) :
  get_valid_moves pos ao false b
  = (Ok (candidate_moves (is_under_attack b) b pos ao), b).
Proof. by rewrite get_valid_moves_unfold. Qed.

(** C10: on an 8x8 grid and for a square of the board, every destination
    that [get_valid_moves] returns has row and column between 0 and 7,
    whatever the two flags are. *)
Theorem get_valid_moves_inside (b b' : t) (pos : square) (ao vp : bool)
  (moves : list square) (row col : Z) :
  wf_grid (board b) ->
  Move._is_valid_position pos = true ->
  get_valid_moves pos ao vp b = (Ok moves, b') ->
  In (row, col) moves ->
  0 <= row <= 7 /\ 0 <= col <= 7.
Proof.
  intros _ _ Hgv Hin.
  eapply get_valid_moves_subset in Hgv; [| exact Hin].
  apply candidate_moves_inside in Hgv.
  apply (is_inside_true row col) in Hgv. lia.
Qed.

Lemma get_valid_moves_inside_witness : 0 <= 5 <= 7 /\ 0 <= 5 <= 7.
Proof.
  apply (get_valid_moves_inside (init None) (init None) (7, 6) false true
           [(5, 7); (5, 5)] 5 5).
  - split; [reflexivity | repeat constructor].
  - reflexivity.
  - vm_compute. reflexivity.
  - right. left. reflexivity.
Defined.

(** ** The en-passant target *)

Lemma mem_In (p : square) (l : list square) : mem p l = true <-> In p l.
Proof.
  unfold mem. rewrite existsb_exists. split.
  - intros (q & Hq & Heq). apply square_eqb_eq in Heq. by subst.
  - intros Hp. exists p. split; [assumption | by apply square_eqb_eq].
Qed.

(** Where a pawn can go: one row ahead, at most one file aside, or two
    rows ahead in its file from its starting row. *)
Lemma pawn_moves_shape (b : t) (w : bool) (row col : Z) (ao : bool)
  (r' c' : Z) :
  In (r', c') (pawn_moves b w row col ao) ->
  (r' = row + (if w then -1 else 1) /\ -1 <= c' - col <= 1)
  \/ (r' = row + 2 * (if w then -1 else 1) /\ c' = col
      /\ row = (if w then 6 else 1)).
Proof.
  unfold pawn_moves. rewrite in_app_iff, in_flat_map.
  intros [Hd | (dc & Hdc & Hd)].
  - destruct (negb ao); [| destruct Hd].
    destruct (is_inside _ col && _); [| destruct Hd].
    destruct Hd as [[= <- <-] | Hd]; [left; lia |].
    destruct (Z.eqb_spec row (if w then 6 else 1)) as [Hrow |];
      [| destruct Hd].
    destruct (is_inside _ col && _); [| destruct Hd].
    destruct Hd as [[= <- <-] | []]. right. auto.
  - assert (-1 <= dc <= 1) by (simpl in Hdc; lia).
    destruct (is_inside _ _); [| destruct Hd].
    apply in_app_iff in Hd as [Hd | Hd].
    + destruct (_ && _); [| destruct Hd].
      destruct Hd as [[= <- <-] | []]. left. lia.
    + destruct (en_passant b) as [ep |]; [| destruct Hd].
      destruct (_ && _); [| destruct Hd].
      destruct Hd as [[= <- <-] | []]. left. lia.
Qed.

Lemma candidate_moves_pawn (att : square -> bool -> bool) (b : t)
  (row col : Z) (ao : bool) :
  Ascii.eqb (upper (cell (board b) (row, col))) "P" = true ->
  candidate_moves att b (row, col) ao
  = pawn_moves b (isupper (cell (board b) (row, col))) row col ao.
Proof.
  intros HP. unfold candidate_moves. rewrite HP.
  rewrite <- upper_dot. apply Ascii.eqb_eq in HP. rewrite HP. reflexivity.
Qed.

(** C5: after a successful [make_move] the en-passant target is the
    skipped square exactly when the move was a two-square pawn advance
    and is [None] after any other move; and a target that has been set
    is gone after the next successful [make_move], whatever that move
    is. *)
Theorem make_move_en_passant (b b' : t) (m : Move.t) :
  wf_grid (board b) ->
  Move._is_valid_position (Move.source m) = true ->
  Move._is_valid_position (Move.target m) = true ->
  make_move m b = (Ok tt, b') ->
  en_passant b' = (if Spec.two_square_pawn_advance b m
                   then Some (Spec.skipped_square m) else None)
  /\ (forall (m2 : Move.t) (b'' : t),
        make_move m2 b' = (Ok tt, b'') ->
        en_passant b' <> None ->
        en_passant b'' <> en_passant b').
Proof.
  intros Hwf Hsrc Hdst Hmv.
  destruct (make_move_Ok _ _ _ Hmv)
    as (moves & b1 & kp & chk & Hgv & Hmem & Hdot & Hcol & _ & _ & Hturn
        & Hep & _).
  cbv zeta in *.
  destruct (get_valid_moves_frame _ _ _ _ _ _ Hwf Hgv) as (_ & Hpiece & _).
  pose proof (get_valid_moves_subset _ _ _ _ _ _ Hgv _
                (proj1 (mem_In _ _) Hmem)) as Hcand.
  rewrite Hpiece in *. clear Hpiece.
  split.
  - rewrite Hep. unfold Spec.two_square_pawn_advance, Spec.skipped_square.
    destruct m as [[sr sc] [dr dc] promo].
    cbn [Move.source Move.target fst snd] in *.
    destruct (Ascii.eqb (upper (cell (board b) (sr, sc))) "P") eqn:HP;
      [| reflexivity].
    rewrite candidate_moves_pawn in Hcand by assumption.
    apply pawn_moves_shape in Hcand. rewrite Hcol in Hcand.
    cbn [andb].
    destruct (white_turn b1);
      destruct (Z.eqb_spec sr 6), (Z.eqb_spec sr 1),
               (Z.eqb_spec dr 4), (Z.eqb_spec dr 3),
               (Z.eqb_spec sc dc),
               (Z.eqb_spec (Z.abs (dr - sr)) 2);
      cbn [andb]; subst; try reflexivity; exfalso; lia.
  - intros m2 b'' Hmv2 Hsome Heq.
    destruct (make_move_Ok _ _ _ Hmv2)
      as (moves2 & b2 & _ & _ & Hgv2 & _ & _ & _ & _ & _ & _ & Hep2 & _).
    cbv zeta in *.
    apply get_valid_moves_fields in Hgv2.
    assert (Hw2 : white_turn b2 = negb (white_turn b1)).
    { rewrite Hgv2. simpl. exact Hturn. }
    rewrite Heq in Hep2. rewrite Hep2 in Hep. rewrite Hw2 in Hep.
    rewrite Hep2 in Hsome. rewrite Hw2 in Hsome.
    destruct (white_turn b1); cbn [negb] in *;
      repeat match type of Hep with
             | context [if ?c then _ else _] => destruct c eqn:?
             end; try discriminate; try congruence;
      repeat match goal with
             | H : _ && _ = true |- _ => apply andb_true_iff in H as [? ?]
             | H : (_ =? _) = true |- _ => apply Z.eqb_eq in H
             end;
      injection Hep; intros; lia.
Qed.

Lemma make_move_en_passant_witness :
  en_passant (snd (make_move Examples.e2e4 (init None))) = Some (5, 4).
Proof.
  refine (proj1 (make_move_en_passant (init None)
                   (snd (make_move Examples.e2e4 (init None)))
                   Examples.e2e4 _ _ _ _)).
  - split; [reflexivity | repeat constructor].
  - reflexivity.
  - reflexivity.
  - vm_compute. reflexivity.
Defined.

(** ** Castling rights *)

Lemma all_squares_complete (r c : Z) :
  is_inside r c = true -> (r, c) ∈ all_squares.
Proof.
  intros [Hr Hc]%is_inside_true.
  assert (Hr' : r = 0 \/ r = 1 \/ r = 2 \/ r = 3 \/ r = 4 \/ r = 5
                \/ r = 6 \/ r = 7) by lia.
  assert (Hc' : c = 0 \/ c = 1 \/ c = 2 \/ c = 3 \/ c = 4 \/ c = 5
                \/ c = 6 \/ c = 7) by lia.
  repeat destruct Hr' as [-> | Hr']; try subst r;
    repeat destruct Hc' as [-> | Hc']; try subst c;
    apply (bool_decide_unpack _); vm_compute; exact I.
Qed.

Lemma cell_outside (g : grid) (r c : Z) :
  is_inside r c = false -> cell g (r, c) = "."%char.
Proof. intros H. unfold cell. by rewrite H. Qed.

(** [find] lists every square that holds the piece. *)
Lemma elem_of_find (g : grid) (piece : ascii) (s : square) :
  piece <> "."%char ->
  s ∈ find g piece <-> cell g s = piece.
Proof.
  intros Hne. unfold find. rewrite list_elem_of_filter. split; [tauto |].
  intros Hs. split; [assumption |]. destruct s as [r c].
  destruct (is_inside r c) eqn:Hin; [by apply all_squares_complete |].
  rewrite cell_outside in Hs by assumption. congruence.
Qed.

(** The probes of the pin section move no king of the side whose only
    king stands on [pos]. *)
Lemma find_king_after_probes (g g' : grid) (king : ascii) (pos : square) :
  king <> "."%char ->
  find g king = [pos] ->
  cell g' pos = cell g pos ->
  (forall s, cell g' s = cell g s \/ cell g' s = "."%char) ->
  find g' king = [pos].
Proof.
  intros Hne Hfind Hpos Hfr. rewrite <- Hfind. unfold find.
  apply list_filter_iff. intros s.
  assert (Hking : cell g pos = king).
  { apply elem_of_find; [assumption |]. rewrite Hfind. by left. }
  split.
  - intros Hs. destruct (Hfr s) as [H | H]; congruence.
  - intros Hs.
    assert (s = pos) as ->; [| congruence].
    apply elem_of_find in Hs; [| assumption].
    rewrite Hfind in Hs. by apply list_elem_of_singleton in Hs.
Qed.

Lemma castling_get_clear (b : t) (key key' : string) :
  castling_get (castling_clear key b) key'
  = if decide (key = key') then false else castling_get b key'.
Proof.
  unfold castling_get, castling_clear. simpl.
  rewrite lookup_insert. by destruct (decide (key = key')).
Qed.

Lemma lookup_insert_false_le (c : gmap string bool) (key key' : string) :
  default false (<[key := false]> c !! key') = true ->
  default false (c !! key') = true.
Proof.
  rewrite lookup_insert. destruct (decide (key = key')); [discriminate | auto].
Qed.

(** [make_move] only ever writes [False] into the castling dictionary,
    and that on every path, the failing ones included. *)
Lemma make_move_rights_le (m : Move.t) (b : t) :
  Spec.rights_le (snd (make_move m b)) b.
Proof.
  destruct m as [[sr sc] [dr dc] promo]. unfold make_move.
  cbn [Move.source Move.target fst snd].
  unfold bind at 1.
  destruct (get_valid_moves _ _ _ b) as [r0 b1] eqn:Hgv.
  apply get_valid_moves_fields in Hgv.
  assert (Hc : castling b1 = castling b) by (rewrite Hgv; reflexivity).
  unfold Spec.rights_le, castling_get. rewrite <- Hc. clear Hgv Hc.
  destruct r0 as [moves |]; [| auto].
  unfold bind at 1. unfold self at 1.
  destruct (negb (mem (dr, dc) moves) || _ || _); [auto |].
  unfold bind at 1. unfold modify at 1.
  unfold bind at 1. unfold lift at 1. cbn [white_turn set_en_passant board].
  destruct (py_getitem _ 0) as [king_pos |]; [| auto].
  unfold make_raw_move, bind, modify, ret, self, lift.
  destruct b1 as [g w c wc bc ep hc fn].
  cbn [board white_turn castling halfmove_clock fullmove_number] in *.
  destruct w.
  all: destruct (square_eqb king_pos (sr, sc));
    destruct (Ascii.eqb (upper (cell g (sr, sc))) "R" && _);
    destruct (Ascii.eqb (upper (cell g (sr, sc))) "R" && _);
    board_fields;
    destruct (Ascii.eqb (upper (cell (raw_move g _) (sr, sc))) "P" || _);
    board_fields;
    destruct (in_check _ _) as [chk |];
    board_fields;
    intros key Hkey;
    repeat (apply lookup_insert_false_le in Hkey); exact Hkey.
Qed.

Lemma play_rights_le (moves : list Move.t) :
  forall b, Spec.rights_le (play moves b) b.
Proof.
  induction moves as [| m moves IH]; intros b; simpl.
  - intros key H. exact H.
  - intros key H. apply (make_move_rights_le m b). by apply IH.
Qed.

Lemma king_char (c : ascii) :
  Ascii.eqb (upper c) "K" = true ->
  c = (if isupper c then "K" else "k")%char.
Proof.
  destruct c as [[] [] [] [] [] [] [] []]; vm_compute;
    (discriminate || reflexivity).
Qed.

(** With one king of a colour on the grid, [find] returns its square. *)
Lemma find_only_king (g : grid) (white : bool) (pos : square) :
  Spec.one_king_of g white ->
  cell g pos = (if white then "K" else "k")%char ->
  find g (if white then "K" else "k")%char = [pos].
Proof.
  unfold Spec.one_king_of. intros Hone Hpos.
  assert (Hin : pos ∈ find g (if white then "K" else "k")%char)
    by (apply elem_of_find; [by destruct white | assumption]).
  destruct (find g _) as [| x [| y l]]; try discriminate.
  apply list_elem_of_singleton in Hin. by subst.
Qed.

(** [self.castling[key] = False] read back through [get]. *)
Lemma lookup_cleared (c : gmap string bool) (key key' : string) :
  default false (<[key := false]> c !! key')
  = if decide (key = key') then false else default false (c !! key').
Proof. rewrite lookup_insert. by destruct (decide (key = key')). Qed.

Lemma make_move_clears_king_rights (b b' : t) (m : Move.t) :
  wf_grid (board b) ->
  Move._is_valid_position (Move.source m) = true ->
  Move._is_valid_position (Move.target m) = true ->
  make_move m b = (Ok tt, b') ->
  Ascii.eqb (upper (cell (board b) (Move.source m))) "K" = true ->
  Spec.one_king_of (board b) (white_turn b) ->
  castling_get b' (Spec.right_key (white_turn b) true) = false
  /\ castling_get b' (Spec.right_key (white_turn b) false) = false.
Proof.
  intros Hwf Hsrc Hdst Hmv HK Hone.
  destruct (make_move_Ok _ _ _ Hmv)
    as (moves & b1 & kp & chk & Hgv & _ & _ & Hcol & Hking & _ & _ & _
        & Hcast & _).
  cbv zeta in *.
  destruct (get_valid_moves_frame _ _ _ _ _ _ Hwf Hgv) as (_ & Hpiece & Hfr).
  assert (Hw : white_turn b1 = white_turn b).
  { apply get_valid_moves_fields in Hgv. rewrite Hgv. reflexivity. }
  rewrite Hpiece, Hw in *.
  (* the king found on the probed board is the piece that moves *)
  assert (Hk : find (board b1) (if white_turn b then "K" else "k")%char
               = [Move.source m]).
  { apply find_king_after_probes with (g := board b);
      [by destruct (white_turn b) | | assumption | assumption].
    apply find_only_king; [assumption |].
    rewrite <- Hcol. by apply king_char. }
  rewrite Hk in Hking. injection Hking as <-.
  unfold castling_get. rewrite Hcast.
  replace (square_eqb (Move.source m) (Move.source m)) with true
    by (symmetry; by apply square_eqb_eq).
  destruct (white_turn b); cbn [Spec.right_key];
    repeat match goal with
           | |- context [if ?c then _ else _] => destruct c
           end;
    rewrite !lookup_cleared; split; reflexivity.
Qed.

Lemma make_move_clears_rook_right (b b' : t) (m : Move.t) (kingside : bool) :
  wf_grid (board b) ->
  Move._is_valid_position (Move.source m) = true ->
  Move._is_valid_position (Move.target m) = true ->
  make_move m b = (Ok tt, b') ->
  Ascii.eqb (upper (cell (board b) (Move.source m))) "R" = true ->
  Move.source m = Spec.rook_home (white_turn b) kingside ->
  castling_get b' (Spec.right_key (white_turn b) kingside) = false.
Proof.
  intros Hwf Hsrc Hdst Hmv HR Hhome.
  destruct (make_move_Ok _ _ _ Hmv)
    as (moves & b1 & kp & chk & Hgv & _ & _ & _ & _ & _ & _ & _ & Hcast & _).
  cbv zeta in *.
  destruct (get_valid_moves_frame _ _ _ _ _ _ Hwf Hgv) as (_ & Hpiece & _).
  assert (Hw : white_turn b1 = white_turn b).
  { apply get_valid_moves_fields in Hgv. rewrite Hgv. reflexivity. }
  rewrite Hpiece, Hw, HR, Hhome in Hcast.
  unfold castling_get. rewrite Hcast.
  destruct (white_turn b), kingside;
    cbn [Spec.right_key Spec.rook_home Spec.home_row andb square_eqb
         fst snd Z.eqb Pos.eqb];
    repeat match goal with
           | |- context [if ?c then _ else _] => destruct c
           end;
    rewrite !lookup_cleared; reflexivity.
Qed.

(** C6: a successful [make_move] of the king, on a grid with one king of
    the mover's colour, clears both castling rights of the mover; of a
    rook leaving its home square, the right of that wing; and over any
    list of [make_move] calls, successful or not, no castling flag goes
    from false to true. *)
Theorem castling_rights_revoked :
  (forall (b b' : t) (m : Move.t),
      wf_grid (board b) ->
      Move._is_valid_position (Move.source m) = true ->
      Move._is_valid_position (Move.target m) = true ->
      make_move m b = (Ok tt, b') ->
      let w := white_turn b in
      let piece := cell (board b) (Move.source m) in
      (Ascii.eqb (upper piece) "K" = true ->
       Spec.one_king_of (board b) w ->
       castling_get b' (Spec.right_key w true) = false
       /\ castling_get b' (Spec.right_key w false) = false)
      /\ (forall kingside : bool,
             Ascii.eqb (upper piece) "R" = true ->
             Move.source m = Spec.rook_home w kingside ->
             castling_get b' (Spec.right_key w kingside) = false))
  /\ (forall (moves : list Move.t) (b : t),
         Spec.rights_le (play moves b) b).
Proof.
  split; [| intros moves b; apply play_rights_le].
  intros b b' m Hwf Hsrc Hdst Hmv w piece. split.
  - by apply make_move_clears_king_rights.
  - intros kingside. by apply make_move_clears_rook_right.
Qed.

Lemma castling_rights_revoked_witness :
  castling_get (snd (make_move Examples.e1e2 Examples.after_e4_e5)) "K"
  = false
  /\ castling_get (snd (make_move Examples.e1e2 Examples.after_e4_e5)) "Q"
     = false.
Proof.
  refine (proj1 (proj1 castling_rights_revoked Examples.after_e4_e5
                   (snd (make_move Examples.e1e2 Examples.after_e4_e5))
                   Examples.e1e2 _ _ _ _) _ _).
  - split; [reflexivity | vm_compute; repeat constructor].
  - reflexivity.
  - reflexivity.
  - vm_compute. reflexivity.
  - reflexivity.
  - reflexivity.
Defined.

(** ** Castling destinations *)

(** The one-square steps of the king stay within one file of it. *)
Lemma steps_king_near (g : grid) (w : bool) (row col r' c' : Z) :
  In (r', c') (steps g w row col king_offsets) -> -1 <= c' - col <= 1.
Proof.
  unfold steps. rewrite in_flat_map. intros ([dr dc] & Hoff & Hd).
  assert (-1 <= dc <= 1).
  { simpl in Hoff.
    repeat (destruct Hoff as [[= <- <-] | Hoff]; [lia |]). destruct Hoff. }
  cbn [fst snd] in Hd.
  destruct (is_inside _ _); [| destruct Hd].
  destruct (_ || _); [| destruct Hd].
  destruct Hd as [[= <- <-] | []]. lia.
Qed.

Lemma candidate_moves_king (att : square -> bool -> bool) (b : t)
  (row col : Z) (ao : bool) :
  Ascii.eqb (upper (cell (board b) (row, col))) "K" = true ->
  candidate_moves att b (row, col) ao
  = steps (board b) (isupper (cell (board b) (row, col))) row col
          king_offsets
    ++ (if negb ao
        then castling_moves att b (isupper (cell (board b) (row, col)))
               row col
        else []).
Proof.
  intros HK. unfold candidate_moves.
  rewrite <- upper_dot. apply Ascii.eqb_eq in HK. rewrite HK. reflexivity.
Qed.

Lemma In_singleton_if (c : bool) (x y : square) :
  In x (if c then [y] else []) <-> c = true /\ y = x.
Proof. destruct c; simpl; intuition discriminate. Qed.

(** The castling tests of the king branch, wing by wing. *)
Lemma castling_moves_target (b : t) (w kingside : bool) (row col : Z) :
  In (row, col + (if kingside then 2 else -2))
     (castling_moves (is_under_attack b) b w row col)
  <-> (row, col) = Spec.king_home w
      /\ Spec.castling_available b w kingside = true.
Proof.
  unfold castling_moves, Spec.king_home, Spec.home_row.
  destruct w; cbn [andb negb].
  - destruct (Z.eqb_spec row 7) as [-> |];
      [| split; [intros [] | intros [[= ? ?] _]; lia]].
    destruct (Z.eqb_spec col 4) as [-> |];
      [| split; [intros [] | intros [[= ?] _]; lia]].
    cbn [andb]. rewrite in_app_iff, !In_singleton_if.
    destruct kingside.
    + change (4 + 2) with 6.
      replace (Spec.castling_available b true true)
        with (castling_get b "K"
              && Ascii.eqb (cell (board b) (7, 5)) "."
              && Ascii.eqb (cell (board b) (7, 6)) "."
              && Ascii.eqb (cell (board b) (7, 7)) "R"
              && negb (is_under_attack b (7, 5) false)
              && negb (is_under_attack b (7, 6) false))
        by (unfold Spec.castling_available, Spec.castling_path_clear,
              Spec.between_king_and_rook, Spec.rook_home, Spec.right_key,
              Spec.rook_of, Spec.home_row;
            cbn [forallb negb]; btauto).
      intuition congruence.
    + change (4 + -2) with 2.
      replace (Spec.castling_available b true false)
        with (castling_get b "Q"
              && Ascii.eqb (cell (board b) (7, 3)) "."
              && Ascii.eqb (cell (board b) (7, 2)) "."
              && Ascii.eqb (cell (board b) (7, 1)) "."
              && Ascii.eqb (cell (board b) (7, 0)) "R"
              && negb (is_under_attack b (7, 3) false)
              && negb (is_under_attack b (7, 2) false)
              && negb (is_under_attack b (7, 1) false))
        by (unfold Spec.castling_available, Spec.castling_path_clear,
              Spec.between_king_and_rook, Spec.rook_home, Spec.right_key,
              Spec.rook_of, Spec.home_row;
            cbn [forallb negb]; btauto).
      intuition congruence.
  - destruct (Z.eqb_spec row 0) as [-> |];
      [| split; [intros [] | intros [[= ? ?] _]; lia]].
    destruct (Z.eqb_spec col 4) as [-> |];
      [| split; [intros [] | intros [[= ?] _]; lia]].
    cbn [andb]. rewrite in_app_iff, !In_singleton_if.
    destruct kingside.
    + change (4 + 2) with 6.
      replace (Spec.castling_available b false true)
        with (castling_get b "k"
              && Ascii.eqb (cell (board b) (0, 5)) "."
              && Ascii.eqb (cell (board b) (0, 6)) "."
              && Ascii.eqb (cell (board b) (0, 7)) "r"
              && negb (is_under_attack b (0, 5) true)
              && negb (is_under_attack b (0, 6) true))
        by (unfold Spec.castling_available, Spec.castling_path_clear,
              Spec.between_king_and_rook, Spec.rook_home, Spec.right_key,
              Spec.rook_of, Spec.home_row;
            cbn [forallb negb]; btauto).
      intuition congruence.
    + change (4 + -2) with 2.
      replace (Spec.castling_available b false false)
        with (castling_get b "q"
              && Ascii.eqb (cell (board b) (0, 3)) "."
              && Ascii.eqb (cell (board b) (0, 2)) "."
              && Ascii.eqb (cell (board b) (0, 1)) "."
              && Ascii.eqb (cell (board b) (0, 0)) "r"
              && negb (is_under_attack b (0, 3) true)
              && negb (is_under_attack b (0, 2) true)
              && negb (is_under_attack b (0, 1) true))
        by (unfold Spec.castling_available, Spec.castling_path_clear,
              Spec.between_king_and_rook, Spec.rook_home, Spec.right_key,
              Spec.rook_of, Spec.home_row;
            cbn [forallb negb]; btauto).
      intuition congruence.
Qed.

(** C4, as the code has it: for a king on [pos] and either wing, the
    square two files from the king is among the destinations of
    [get_valid_moves] with [attack_moves_only=False] and
    [validate_pin=False] exactly when the king stands on its home
    square, the castling flag of that wing is set, the squares between
    king and rook are empty, the rook is on its home square and none of
    the squares between king and rook is attacked by the opponent; the
    king's own square is not tested. With [validate_pin=True] the square
    is returned only if those conditions hold. *)
Theorem castling_destination (b : t) (pos : square) (kingside : bool) :
  wf_grid (board b) ->
  Ascii.eqb (upper (cell (board b) pos)) "K" = true ->
  let w := isupper (cell (board b) pos) in
  let dest := (fst pos, snd pos + (if kingside then 2 else -2)) in
  (exists moves,
      get_valid_moves pos false false b = (Ok moves, b)
      /\ (In dest moves <->
          pos = Spec.king_home w
          /\ Spec.castling_available b w kingside = true))
  /\ (forall moves b',
         get_valid_moves pos false true b = (Ok moves, b') ->
         In dest moves ->
         pos = Spec.king_home w
         /\ Spec.castling_available b w kingside = true).
Proof.
  intros _ HK w dest. destruct pos as [row col].
  assert (Hcand : In dest (candidate_moves (is_under_attack b) b
                             (row, col) false)
                  <-> (row, col) = Spec.king_home w
                      /\ Spec.castling_available b w kingside = true).
  { rewrite candidate_moves_king by assumption.
    rewrite in_app_iff. cbn [negb]. fold w.
    rewrite <- castling_moves_target. subst dest. cbn [fst snd].
    split; [| tauto].
    intros [Hnear | Hcastle]; [| assumption].
    apply steps_king_near in Hnear. destruct kingside; lia. }
  split.
  - exists (candidate_moves (is_under_attack b) b (row, col) false).
    split; [apply get_valid_moves_no_pin_total | exact Hcand].
  - intros moves b' Hgv Hin. apply Hcand.
    eapply get_valid_moves_subset; eauto.
Qed.

Lemma castling_destination_witness :
  exists moves,
    get_valid_moves (7, 4) false false Examples.castle_into_check
    = (Ok moves, Examples.castle_into_check)
    /\ (In (7, 6) moves <->
        (7, 4) = Spec.king_home true
        /\ Spec.castling_available Examples.castle_into_check true true
           = true).
Proof.
  refine (proj1 (castling_destination Examples.castle_into_check (7, 4)
                   true _ _)).
  - split; [reflexivity | vm_compute; repeat constructor].
  - reflexivity.
Defined.

(** C4 as stated fails: with a rook on e8 the white king on e1 stands
    attacked, so the stated condition does not hold, yet g1 is among the
    destinations, with and without the pin section. *)
Lemma castling_offered_out_of_check :
  is_under_attack Examples.castle_out_of_check (7, 4) false = true
  /\ Spec.claimed_castling_available Examples.castle_out_of_check true true
     = false
  /\ forall validate_pin,
       exists moves,
         get_valid_moves (7, 4) false validate_pin
           Examples.castle_out_of_check
         = (Ok moves, Examples.castle_out_of_check)
         /\ In (7, 6) moves.
Proof.
  split; [vm_compute; reflexivity |].
  split; [vm_compute; reflexivity |].
  intros vp. exists [(6, 3); (6, 4); (6, 5); (7, 3); (7, 5); (7, 6)].
  split; [destruct vp; vm_compute; reflexivity | simpl; tauto].
Qed.

(** The other way round: with the rook on g8 only the landing square g1
    is attacked, the stated condition holds, and g1 is not offered. *)
Lemma castling_refused_into_check :
  Spec.claimed_castling_available Examples.castle_into_check true true
  = true
  /\ get_valid_moves (7, 4) false false Examples.castle_into_check
     = (Ok [(6, 3); (6, 4); (6, 5); (7, 3); (7, 5)],
        Examples.castle_into_check).
Proof. split; vm_compute; reflexivity. Qed.

(** ** Where the code departs from its own description *)

(** C1: after 1. e4 d5, both played through [make_move], the request
    e4-e6 is refused with the illegal-move error, and the board it
    leaves behind has lost the black pawn on d5: the probe of the
    capture e4xd5 in the pin section was undone without putting the
    pawn back. *)
Theorem make_move_failure_changes_board :
  fst (make_move Examples.e2e4 (init None)) = Ok tt
  /\ fst (make_move Examples.d7d5 (snd (make_move Examples.e2e4 (init None))))
     = Ok tt
  /\ fst (make_move Examples.e4e6 Examples.after_e4_d5)
     = Raise (ValueError IllegalMove)
  /\ cell (board Examples.after_e4_d5) (3, 3) = "p"%char
  /\ cell (board (snd (make_move Examples.e4e6 Examples.after_e4_d5))) (3, 3)
     = "."%char.
Proof. repeat split; vm_compute; reflexivity. Qed.

(** C2: a white knight on e2 shields its king on e1 from a rook on e8;
    each colour has one king. With [validate_pin=True] all six knight
    moves are returned, and after the first of them, e2-f4, the white
    king is attacked: the test of the pin section reads the colour from
    the square the piece has just left, so for a white piece it asks
    about the black king. *)
Theorem pin_filter_keeps_exposing_moves :
  Spec.one_king_each (board Examples.pinned_knight)
  /\ get_valid_moves (6, 4) false true Examples.pinned_knight
     = (Ok [(4, 5); (4, 3); (7, 6); (7, 2); (5, 6); (5, 2)],
        Examples.pinned_knight)
  /\ in_check Examples.pinned_knight true = Ok false
  /\ in_check (set_board (raw_move (board Examples.pinned_knight)
                            (Examples.move (6, 4) (4, 5)))
                 Examples.pinned_knight) true
     = Ok true.
Proof. repeat split; vm_compute; reflexivity. Qed.

(** The pin section also fails a black piece: removing a destination
    from the list while iterating over it skips the next one. The black
    king is in check from a rook on e1; of the knight's eight moves only e5 and
    e7 block, yet b4 and b8 are returned with them, and b4 leaves the
    king in check. *)
Lemma pin_filter_skips_after_removal :
  candidate_moves (is_under_attack Examples.black_in_check_position)
    Examples.black_in_check_position (2, 2) false
  = [(4, 3); (4, 1); (0, 3); (0, 1); (3, 4); (3, 0); (1, 4); (1, 0)]
  /\ fst (get_valid_moves (2, 2) false true Examples.black_in_check_position)
     = Ok [(4, 1); (0, 1); (3, 4); (1, 4)]
  /\ in_check (set_board (raw_move (board Examples.black_in_check_position)
                            (Examples.move (2, 2) (4, 1)))
                 Examples.black_in_check_position) false
     = Ok true.
Proof. repeat split; vm_compute; reflexivity. Qed.

(** The clock test runs after the piece has been moved: the destination
    then holds the piece, so the test always succeeds. *)
Lemma make_move_halfmove_clock_zero (b b' : t) (m : Move.t) :
  wf_grid (board b) ->
  Move._is_valid_position (Move.source m) = true ->
  Move._is_valid_position (Move.target m) = true ->
  make_move m b = (Ok tt, b') ->
  halfmove_clock b' = 0.
Proof.
  intros Hwf Hsrc Hdst Hmv.
  destruct (make_move_Ok _ _ _ Hmv)
    as (moves & b1 & kp & chk & Hgv & _ & Hdot & _ & _ & Hboard & _ & _ & _
        & Hclock & _).
  cbv zeta in *.
  destruct (get_valid_moves_frame _ _ _ _ _ _ Hwf Hgv) as (Hwf1 & _ & _).
  rewrite Hclock, Hboard.
  rewrite (cell_raw_move _ _ (Move.target m)) by assumption.
  rewrite decide_True by reflexivity.
  rewrite upper_dot, Hdot. cbn [negb]. by rewrite orb_true_r.
Qed.

(** C3: from the starting position the knight move g1-f3, neither a pawn
    move nor a capture, leaves the halfmove clock at 0 and not at 1. *)
Theorem knight_move_leaves_clock_at_zero :
  fst (make_move Examples.g1f3 (init None)) = Ok tt
  /\ cell (board (init None)) (7, 6) = "N"%char
  /\ cell (board (init None)) (5, 5) = "."%char
  /\ halfmove_clock (init None) = 0
  /\ halfmove_clock (snd (make_move Examples.g1f3 (init None))) = 0.
Proof. repeat split; vm_compute; reflexivity. Qed.

(** C9: after 1. e4 Nf6 2. e5 d5 the en-passant target is d6. The
    capture e5xd6 succeeds, the bypassed pawn stays on d5, and a third
    square changes: the knight on f6, the pawn's other capture, is gone,
    emptied by its probe in the pin section. *)
Theorem en_passant_capture_changes_third_square :
  en_passant Examples.before_en_passant = Some (2, 3)
  /\ fst (make_move Examples.e5d6 Examples.before_en_passant) = Ok tt
  /\ cell (board Examples.before_en_passant) (2, 5) = "n"%char
  /\ cell (board (snd (make_move Examples.e5d6 Examples.before_en_passant)))
          (2, 5) = "."%char
  /\ cell (board (snd (make_move Examples.e5d6 Examples.before_en_passant)))
          (3, 3) = "p"%char
  /\ cell (board (snd (make_move Examples.e5d6 Examples.before_en_passant)))
          (2, 3) = "P"%char.
Proof. repeat split; vm_compute; reflexivity. Qed.

(** What every successful pawn capture does keep: the square on the
    source row and the target file, where a pawn taken in passing
    stands, holds afterwards what it held before. *)
Lemma make_move_keeps_bypassed_pawn (b b' : t) (m : Move.t) :
  wf_grid (board b) ->
  Move._is_valid_position (Move.source m) = true ->
  Move._is_valid_position (Move.target m) = true ->
  make_move m b = (Ok tt, b') ->
  Ascii.eqb (upper (cell (board b) (Move.source m))) "P" = true ->
  snd (Move.target m) <> snd (Move.source m) ->
  cell (board b') (fst (Move.source m), snd (Move.target m))
  = cell (board b) (fst (Move.source m), snd (Move.target m)).
Proof.
  intros Hwf Hsrc Hdst Hmv HP Hcol.
  destruct (make_move_Ok _ _ _ Hmv)
    as (moves & b1 & _ & _ & Hgv & Hmem & _).
  cbv zeta in *.
  pose proof (get_valid_moves_subset _ _ _ _ _ _ Hgv _
                (proj1 (mem_In _ _) Hmem)) as Hcand.
  destruct m as [[sr sc] [dr dc] promo].
  cbn [Move.source Move.target fst snd] in *.
  rewrite candidate_moves_pawn in Hcand by assumption.
  apply pawn_moves_shape in Hcand.
  apply (make_move_frame b b' (Move.mk (sr, sc) (dr, dc) promo));
    try assumption; cbn [Move.source Move.target].
  - intros [= ?]. congruence.
  - intros [= ?]. subst dr. destruct (isupper _); lia.
  - rewrite candidate_moves_pawn by assumption.
    intros H. apply pawn_moves_shape in H.
    destruct (isupper _); lia.
Qed.

(** * Further properties of app/move.py *)

Lemma is_valid_position_bounds (pos : square) :
  Move._is_valid_position pos = true
  <-> 0 <= fst pos <= 7 /\ 0 <= snd pos <= 7.
Proof.
  destruct pos as [r c]. rewrite (is_inside_true r c). simpl. lia.
Qed.

(** X1: [Move.__init__] fails with the out-of-range error exactly when a
    coordinate of the source or of the target lies outside 0..7,
    whatever the promotion is; and a move that it returns holds the
    three arguments as given, with both squares on the board. *)
Theorem init_spec (src dst : square) (p : option pyobj) :
  (Move.init src dst p = Raise (ValueError OutOfRange)
   <-> ~ (0 <= fst src <= 7 /\ 0 <= snd src <= 7
          /\ 0 <= fst dst <= 7 /\ 0 <= snd dst <= 7))
  /\ (forall m,
        Move.init src dst p = Ok m ->
        m = Move.mk src dst p
        /\ Move._is_valid_position (Move.source m) = true
        /\ Move._is_valid_position (Move.target m) = true).
Proof.
  unfold Move.init.
  pose proof (is_valid_position_bounds src) as Hs.
  pose proof (is_valid_position_bounds dst) as Hd.
  destruct (Move._is_valid_position src) eqn:Hvs.
  - destruct (Move._is_valid_position dst) eqn:Hvd; simpl.
    + split.
      * split.
        -- destruct p as [[s | n] |]; discriminate.
        -- intros H. exfalso. apply H.
           destruct Hs as [Hs _], Hd as [Hd _]. specialize (Hs eq_refl).
           specialize (Hd eq_refl). tauto.
      * intros m. destruct p as [[s | n] |]; simpl; try discriminate;
          intros [= <-]; auto.
    + split; [| discriminate]. split; [| reflexivity].
      intros _ (_ & _ & H).
      destruct Hd as [_ Hd]. specialize (Hd H). discriminate.
  - simpl. split; [| discriminate]. split; [| reflexivity].
    intros _ (H1 & H2 & _).
    destruct Hs as [_ Hs]. specialize (Hs (conj H1 H2)). discriminate.
Qed.

Lemma init_spec_witness :
  Move.mk (6, 4) (4, 4) (Some (PyStr "q"))
  = Move.mk (6, 4) (4, 4) (Some (PyStr "q"))
  /\ Move._is_valid_position (6, 4) = true
  /\ Move._is_valid_position (4, 4) = true.
Proof.
  apply (proj2 (init_spec (6, 4) (4, 4) (Some (PyStr "q")))). reflexivity.
Defined.

(** X2: [from_algebraic] never fails with the out-of-range error: the
    two tests it makes after the conversion cannot fire, and neither can
    those of the constructor it calls. *)
Theorem from_algebraic_never_out_of_range
  (source target : string) (p : option pyobj) :
  Move.from_algebraic source target p <> Raise (ValueError OutOfRange).
Proof.
  unfold Move.from_algebraic. rewrite !algebraic_to_index_spec.
  destruct (Spec.parse_square source) as [src |] eqn:Hs; [| discriminate].
  destruct (Spec.parse_square target) as [dst |] eqn:Ht; [| discriminate].
  simpl.
  pose proof (parse_square_valid _ _ Hs) as Hvs.
  pose proof (parse_square_valid _ _ Ht) as Hvd.
  rewrite Hvs, Hvd. simpl. unfold Move.init. rewrite Hvs, Hvd. simpl.
  destruct p as [[s | n] |]; discriminate.
Qed.

Lemma ord_inj (c d : ascii) : ord c = ord d -> c = d.
Proof.
  unfold ord. intros H. apply N2Z.inj in H.
  rewrite <- (ascii_N_embedding c), <- (ascii_N_embedding d). by rewrite H.
Qed.

(** X3: [_algebraic_to_index] names each square of the board once, up to
    the case of the file letter: every square on the board is the image
    of its text, and two texts with the same image have the same rank
    digit and the same file letter once lower-cased. *)
Theorem algebraic_to_index_bijective :
  (forall sq : square,
      Move._is_valid_position sq = true ->
      Move._algebraic_to_index (Geometry.square_text sq) = Ok sq)
  /\ (forall (f r f' r' : ascii) (sq : square),
         Move._algebraic_to_index (String f (String r EmptyString)) = Ok sq ->
         Move._algebraic_to_index (String f' (String r' EmptyString)) = Ok sq ->
         lower f = lower f' /\ r = r').
Proof.
  split.
  - intros [row col] [Hr Hc]%is_inside_true.
    assert (Hr' : row = 0 \/ row = 1 \/ row = 2 \/ row = 3 \/ row = 4
                  \/ row = 5 \/ row = 6 \/ row = 7) by lia.
    assert (Hc' : col = 0 \/ col = 1 \/ col = 2 \/ col = 3 \/ col = 4
                  \/ col = 5 \/ col = 6 \/ col = 7) by lia.
    repeat destruct Hr' as [-> | Hr']; try subst row;
      repeat destruct Hc' as [-> | Hc']; try subst col; reflexivity.
  - intros f r f' r' sq. rewrite !algebraic_to_index_spec.
    unfold Spec.parse_square.
    destruct (_ && (ord r <=? 56)); [| discriminate].
    destruct (_ && (ord r' <=? 56)); [| discriminate].
    intros [= <-] [= Hrow Hcol]. split; apply ord_inj; lia.
Qed.

Lemma algebraic_to_index_bijective_witness :
  Move._algebraic_to_index "e2" = Ok (6, 4).
Proof.
  apply (proj1 algebraic_to_index_bijective (6, 4)). reflexivity.
Defined.

(** * Further properties of app/board.py *)

(** ** [get] *)

Lemma py_getitem_out_of_range {A : Type} (l : list A) (i : Z) :
  i < - Z.of_nat (length l) \/ Z.of_nat (length l) <= i ->
  py_getitem l i = Raise IndexError.
Proof.
  intros Hi. unfold py_getitem.
  destruct (Z.ltb_spec i 0).
  - destruct (Z.leb_spec 0 (i + Z.of_nat (length l))); [lia | reflexivity].
  - destruct (Z.leb_spec 0 i); [| lia]. simpl.
    destruct (Z.ltb_spec i (Z.of_nat (length l))); [lia | reflexivity].
Qed.

Lemma py_getitem_wrap {A : Type} (l : list A) (i : Z) :
  - Z.of_nat (length l) <= i < 0 ->
  py_getitem l i = py_getitem l (i + Z.of_nat (length l)).
Proof.
  intros Hi. unfold py_getitem.
  destruct (Z.ltb_spec i 0); [| lia].
  destruct (Z.ltb_spec (i + Z.of_nat (length l)) 0); [lia |].
  reflexivity.
Qed.

(** X4: on an 8x8 grid, [get(rank, file)] with a lower-case file letter
    returns the piece on the square that [_algebraic_to_index] gives for
    the text made of that file and rank: the two modules name the
    squares alike. *)
Theorem get_agrees_with_algebraic (b : t) (file rank_char : ascii)
  (sq : square) :
  wf_grid (board b) ->
  lower file = file ->
  Move._algebraic_to_index (String file (String rank_char EmptyString))
  = Ok sq ->
  BoardRest.get b (int_of_digit rank_char) file = Ok (cell (board b) sq).
Proof.
  intros Hwf Hlow Hidx. rewrite algebraic_to_index_spec in Hidx.
  destruct (Spec.parse_square _) as [sq' |] eqn:Hp; [| discriminate].
  injection Hidx as ->.
  pose proof (parse_square_valid _ _ Hp) as Hv.
  unfold Spec.parse_square in Hp.
  destruct (_ && (ord rank_char <=? 56)); [| discriminate].
  injection Hp as <-. rewrite Hlow in *.
  unfold BoardRest.get, int_of_digit.
  change (ord "a") with 97. by apply board_getitem_cell.
Qed.

Lemma get_agrees_with_algebraic_witness :
  BoardRest.get (init None) 2 "e" = Ok "P"%char.
Proof.
  apply (get_agrees_with_algebraic (init None) "e" "2" (6, 4)).
  - split; [reflexivity | repeat constructor].
  - reflexivity.
  - reflexivity.
Defined.

(** X5: the edges of [get] on an 8x8 grid. A rank from 9 to 16 is not
    refused: the negative row index counts from the end of the list, and
    the answer is the one for the rank eight below. Ranks below 1 or
    above 16 raise [IndexError], and so does an upper-case file letter,
    which [from_algebraic] accepts. *)
Theorem get_edges (b : t) (rank : Z) (file : ascii) :
  wf_grid (board b) ->
  (9 <= rank <= 16 ->
   BoardRest.get b rank file = BoardRest.get b (rank - 8) file)
  /\ (rank <= 0 \/ 17 <= rank ->
      BoardRest.get b rank file = Raise IndexError)
  /\ (1 <= rank <= 8 -> 65 <= ord file <= 72 ->
      BoardRest.get b rank file = Raise IndexError).
Proof.
  intros [Hlen Hrows]. unfold BoardRest.get, board_getitem.
  split; [| split].
  - intros Hr. rewrite py_getitem_wrap by lia. do 2 f_equal. lia.
  - intros Hr. rewrite py_getitem_out_of_range by lia. reflexivity.
  - intros Hr Hf.
    destruct (lookup_lt_is_Some_2 (board b) (Z.to_nat (8 - rank)))
      as [row Hrow]; [lia |].
    rewrite (py_getitem_lookup _ _ row) by (lia || assumption). simpl.
    rewrite Forall_forall in Hrows.
    pose proof (Hrows row (list_elem_of_lookup_2 _ _ _ Hrow)) as Hl.
    apply py_getitem_out_of_range. change (ord "a") with 97. lia.
Qed.

Lemma get_edges_witness :
  BoardRest.get (init None) 9 "e" = BoardRest.get (init None) (9 - 8) "e".
Proof.
  refine (proj1 (get_edges (init None) 9 "e" _) _).
  - split; [reflexivity | repeat constructor].
  - lia.
Defined.

(** ** [find], [in_check] and [is_under_attack] *)

Lemma NoDup_all_squares : NoDup all_squares.
Proof. apply (bool_decide_unpack _). vm_compute. exact I. Qed.

Lemma all_squares_inside (s : square) :
  s ∈ all_squares -> is_inside (fst s) (snd s) = true.
Proof.
  intros Hs. apply list_elem_of_In in Hs. vm_compute in Hs.
  repeat (destruct Hs as [<- | Hs]; [reflexivity |]). destruct Hs.
Qed.

(** X6: on an 8x8 grid, [find] returns exactly the squares of the
    board that hold the piece, each of them once. *)
Theorem find_spec (g : grid) (piece : ascii) :
  wf_grid g ->
  (forall s : square,
      s ∈ find g piece
      <-> is_inside (fst s) (snd s) = true /\ cell g s = piece)
  /\ NoDup (find g piece).
Proof.
  intros _. split.
  - intros s. unfold find. rewrite list_elem_of_filter. split.
    + intros [Hc Hs]. split; [by apply all_squares_inside | assumption].
    + intros [Hin Hc]. split; [assumption |]. destruct s as [r c].
      by apply all_squares_complete.
  - unfold find. apply NoDup_filter, NoDup_all_squares.
Qed.

Lemma find_spec_witness :
  (forall s : square,
      s ∈ find (board (init None)) "k"%char
      <-> is_inside (fst s) (snd s) = true
          /\ cell (board (init None)) s = "k"%char)
  /\ NoDup (find (board (init None)) "k"%char).
Proof.
  apply (find_spec (board (init None)) "k"%char).
  split; [reflexivity | repeat constructor].
Defined.

Lemma py_getitem_first {A : Type} (l : list A) :
  py_getitem l 0 = match l with
                   | [] => Raise IndexError
                   | x :: _ => Ok x
                   end.
Proof.
  destruct l as [| x l]; [reflexivity |].
  apply py_getitem_lookup; [lia | reflexivity].
Qed.

Lemma in_check_unfold (b : t) (white : bool) :
  in_check b white =
  match find (board b) (if white then "K" else "k")%char with
  | [] => Raise IndexError
  | s :: _ => Ok (is_under_attack b s (negb white))
  end.
Proof.
  unfold in_check. rewrite py_getitem_first.
  by destruct (find _ _).
Qed.

(** X7: on an 8x8 grid, [in_check] raises [IndexError] exactly when no
    square holds the king of that colour; it raises nothing else, and
    otherwise it answers whether the first such square in row order is
    attacked by the other colour. *)
Theorem in_check_spec (b : t) (white : bool) :
  wf_grid (board b) ->
  let king := (if white then "K" else "k")%char in
  (in_check b white = Raise IndexError
   <-> forall s, cell (board b) s <> king)
  /\ (forall e, in_check b white = Raise e -> e = IndexError)
  /\ (forall r, in_check b white = Ok r ->
        exists s rest,
          find (board b) king = s :: rest
          /\ cell (board b) s = king
          /\ r = is_under_attack b s (negb white)).
Proof.
  intros _ king. rewrite in_check_unfold. fold king.
  assert (Hne : king <> "."%char) by (unfold king; by destruct white).
  destruct (find (board b) king) as [| s rest] eqn:Hfind.
  - split; [| split].
    + split; [| reflexivity]. intros _ s Hs.
      apply elem_of_find in Hs; [| assumption].
      rewrite Hfind in Hs. by apply not_elem_of_nil in Hs.
    + intros e He. by injection He as <-.
    + intros r Hr. inversion Hr.
  - assert (Hs : cell (board b) s = king).
    { apply elem_of_find; [assumption |]. rewrite Hfind. by left. }
    split; [| split].
    + split; [intros H; inversion H |].
      intros Hno. exfalso. by apply (Hno s).
    + intros e He. inversion He.
    + intros r Hr. injection Hr as <-. exists s, rest. auto.
Qed.

Lemma in_check_spec_witness :
  exists s rest,
    find (board (init None)) "K"%char = s :: rest
    /\ cell (board (init None)) s = "K"%char
    /\ false = is_under_attack (init None) s (negb true).
Proof.
  refine (proj2 (proj2 (in_check_spec (init None) true _)) false _).
  - split; [reflexivity | repeat constructor].
  - vm_compute. reflexivity.
Defined.

(** With [attack_moves_only=True] the castling tests are not reached, so
    the attack test plays no part in the squares generated. *)
Lemma candidate_moves_attack_only (att att' : square -> bool -> bool)
  (b : t) (pos : square) :
  candidate_moves att b pos true = candidate_moves att' b pos true.
Proof.
  destruct pos as [row col]. unfold candidate_moves. cbn [negb].
  reflexivity.
Qed.

(** The call that [is_under_attack] makes through [get_all_valid_moves]:
    [get_valid_moves(pos, True, False)] returns [attack_moves] and
    leaves the board alone. *)
Lemma get_valid_moves_attack (b : t) (pos : square) :
  get_valid_moves pos true false b = (Ok (attack_moves b pos), b).
Proof.
  rewrite get_valid_moves_no_pin_total. unfold attack_moves.
  by rewrite (candidate_moves_attack_only _ (fun _ _ => false)).
Qed.

(** X8: on an 8x8 grid, a square is under attack by a colour exactly
    when some square of the board holds a piece of that case whose destinations under
    [get_valid_moves(square, attack_moves_only=True, validate_pin=False)]
    include it; a square off the board is never under attack. *)
Theorem is_under_attack_spec (b : t) (pos : square) (white : bool) :
  wf_grid (board b) ->
  (is_under_attack b pos white = true
   <-> exists s moves,
         is_inside (fst s) (snd s) = true
         /\ isupper (cell (board b) s) = white
         /\ get_valid_moves s true false b = (Ok moves, b)
         /\ In pos moves)
  /\ (Move._is_valid_position pos = false ->
      is_under_attack b pos white = false).
Proof.
  intros _.
  assert (Hiff : is_under_attack b pos white = true
                 <-> exists s,
                      is_inside (fst s) (snd s) = true
                      /\ isupper (cell (board b) s) = white
                      /\ In pos (attack_moves b s)).
  { unfold is_under_attack, get_all_valid_moves.
    rewrite existsb_exists. split.
    - intros ([s [piece moves]] & Hin & Htest).
      apply in_map_iff in Hin as (s' & [= -> <- <-] & Hs).
      cbn [fst snd] in Htest. apply andb_true_iff in Htest as [Hcol Hmem].
      exists s. split; [| split].
      + apply all_squares_inside. by apply list_elem_of_In.
      + by apply eqb_prop.
      + by apply mem_In.
    - intros (s & Hin & Hcol & Hmem).
      exists (s, (cell (board b) s, attack_moves b s)). split.
      + apply in_map_iff. exists s. split; [reflexivity |].
        apply list_elem_of_In. destruct s. by apply all_squares_complete.
      + cbn [fst snd]. apply andb_true_iff. split.
        * rewrite Hcol. apply eqb_reflx.
        * by apply mem_In. }
  split.
  - rewrite Hiff. split.
    + intros (s & Hin & Hcol & Hmem). exists s, (attack_moves b s).
      split; [assumption |]. split; [assumption |].
      split; [apply get_valid_moves_attack | assumption].
    + intros (s & moves & Hin & Hcol & Hgv & Hmem). exists s.
      rewrite get_valid_moves_attack in Hgv. injection Hgv as <-. auto.
  - intros Hout. apply not_true_is_false. rewrite Hiff.
    intros (s & _ & _ & Hmem).
    apply candidate_moves_inside in Hmem. congruence.
Qed.

Lemma is_under_attack_spec_witness :
  is_under_attack (init None) (8, 0) true = false.
Proof.
  refine (proj2 (is_under_attack_spec (init None) (8, 0) true _) _).
  - split; [reflexivity | repeat constructor].
  - reflexivity.
Defined.

Lemma candidate_moves_depends (att : square -> bool -> bool) (b1 b2 : t)
  (pos : square) :
  board b1 = board b2 -> en_passant b1 = en_passant b2 ->
  candidate_moves att b1 pos true = candidate_moves att b2 pos true.
Proof.
  intros Hg Hep. destruct pos as [row col].
  unfold candidate_moves, pawn_moves. rewrite Hg, Hep. reflexivity.
Qed.

Lemma attack_queries_depend (b1 b2 : t) :
  board b1 = board b2 ->
  en_passant b1 = en_passant b2 ->
  (forall pos white, is_under_attack b1 pos white
                     = is_under_attack b2 pos white)
  /\ (forall white, in_check b1 white = in_check b2 white).
Proof.
  intros Hg Hep.
  assert (Hatt : forall pos white, is_under_attack b1 pos white
                                   = is_under_attack b2 pos white).
  { assert (Hall : get_all_valid_moves b1 = get_all_valid_moves b2).
    { unfold get_all_valid_moves. rewrite Hg. apply map_ext. intros s.
      unfold attack_moves. by rewrite (candidate_moves_depends _ b1 b2). }
    intros pos white. unfold is_under_attack. by rewrite Hall. }
  split; [exact Hatt |].
  intros white. rewrite !in_check_unfold, Hg.
  destruct (find _ _); [reflexivity |]. by rewrite Hatt.
Qed.

(** X9: the attack queries read the grid and the en-passant target and
    nothing else: two boards with the same 8x8 grid and the same
    en-passant target give the same answers
    to [is_under_attack] and to [in_check], whatever their turn,
    castling rights, check flags and counters. *)
Theorem attack_queries_read_grid_only (b1 b2 : t) :
  wf_grid (board b1) ->
  board b1 = board b2 ->
  en_passant b1 = en_passant b2 ->
  (forall pos white, is_under_attack b1 pos white
                     = is_under_attack b2 pos white)
  /\ (forall white, in_check b1 white = in_check b2 white).
Proof. intros _. apply attack_queries_depend. Qed.

Lemma attack_queries_read_grid_only_witness :
  in_check (set_white_turn false (init None)) true
  = in_check (init None) true.
Proof.
  refine (proj2 (attack_queries_read_grid_only
                   (set_white_turn false (init None)) (init None) _ _ _)
            true).
  - split; [reflexivity | repeat constructor].
  - reflexivity.
  - reflexivity.
Defined.

(** ** What each piece generates *)

Lemma landable_test (g : grid) (w : bool) (d : square) :
  Ascii.eqb (cell g d) "." || negb (Bool.eqb (isupper (cell g d)) w) = true
  <-> Geometry.landable g w d.
Proof.
  unfold Geometry.landable.
  rewrite orb_true_iff, Ascii.eqb_eq, negb_true_iff, eqb_false_iff.
  tauto.
Qed.

(** One ray, square by square: the [k]-th square of the line is
    generated when it is on the board, the squares before it are on the
    board and empty, and it is empty or holds a piece of the other
    case. *)
Lemma ray_spec (g : grid) (w : bool) (dr dc : Z) :
  forall (fuel : nat) (r c : Z) (d : square),
    In d (ray fuel g w r c dr dc)
    <-> exists k,
          1 <= k <= Z.of_nat fuel
          /\ d = (r + k * dr, c + k * dc)
          /\ is_inside (fst d) (snd d) = true
          /\ (forall j, 1 <= j < k ->
                is_inside (r + j * dr) (c + j * dc) = true
                /\ cell g (r + j * dr, c + j * dc) = "."%char)
          /\ Geometry.landable g w d.
Proof.
  induction fuel as [| fuel IH]; intros r c d.
  - simpl. split; [intros [] | intros (k & Hk & _); lia].
  - cbn [ray].
    destruct (is_inside (r + dr) (c + dc)) eqn:Hin; cbn [negb].
    + destruct (Ascii.eqb (cell g (r + dr, c + dc)) ".") eqn:Hdot.
      * apply Ascii.eqb_eq in Hdot. cbn [In]. rewrite IH. split.
        -- intros [<- | (k & Hk & -> & Hind & Hbetween & Hland)].
           ++ exists 1. rewrite !Z.mul_1_l. cbn [fst snd].
              repeat split; try assumption; try lia. by left.
           ++ exists (k + 1). cbn [fst snd] in *.
              replace (r + (k + 1) * dr) with (r + dr + k * dr) by lia.
              replace (c + (k + 1) * dc) with (c + dc + k * dc) by lia.
              split; [lia |]. split; [reflexivity |].
              split; [assumption |]. split; [| assumption].
              intros j Hj. destruct (Z.eq_dec j 1) as [-> | Hj1].
              ** by rewrite !Z.mul_1_l.
              ** replace (r + j * dr) with (r + dr + (j - 1) * dr) by lia.
                 replace (c + j * dc) with (c + dc + (j - 1) * dc) by lia.
                 apply Hbetween. lia.
        -- intros (k & Hk & -> & Hind & Hbetween & Hland).
           destruct (Z.eq_dec k 1) as [-> | Hk1].
           ++ left. by rewrite !Z.mul_1_l.
           ++ right. exists (k - 1).
              replace (r + dr + (k - 1) * dr) with (r + k * dr) by lia.
              replace (c + dc + (k - 1) * dc) with (c + k * dc) by lia.
              split; [lia |]. split; [reflexivity |].
              split; [assumption |]. split; [| assumption].
              intros j Hj.
              replace (r + dr + j * dr) with (r + (j + 1) * dr) by lia.
              replace (c + dc + j * dc) with (c + (j + 1) * dc) by lia.
              apply Hbetween. lia.
      * assert (Hnd : cell g (r + dr, c + dc) <> "."%char)
          by (intros H; apply Ascii.eqb_eq in H; congruence).
        split.
        -- destruct (negb _) eqn:Hopp; [| intros []].
           intros [<- | []]. exists 1. rewrite !Z.mul_1_l. cbn [fst snd].
           repeat split; try assumption; try lia.
           right. apply negb_true_iff in Hopp. by apply eqb_false_iff.
        -- intros (k & Hk & -> & Hind & Hbetween & Hland).
           destruct (Z.eq_dec k 1) as [-> | Hk1].
           ++ rewrite !Z.mul_1_l in *. destruct Hland as [? | Hopp];
                [contradiction |].
              apply eqb_false_iff in Hopp. rewrite Hopp. by left.
           ++ exfalso. destruct (Hbetween 1 ltac:(lia)) as [_ H1].
              rewrite !Z.mul_1_l in H1. contradiction.
    + split; [intros [] |].
      intros (k & Hk & -> & Hind & Hbetween & _). cbn [fst snd] in Hind.
      destruct (Z.eq_dec k 1) as [-> | Hk1].
      * rewrite !Z.mul_1_l in Hind. congruence.
      * destruct (Hbetween 1 ltac:(lia)) as [H1 _].
        rewrite !Z.mul_1_l in H1. congruence.
Qed.

Lemma rook_directions_spec (d : Z * Z) :
  In d rook_directions <-> Geometry.straight d.
Proof.
  destruct d as [dr dc]. unfold Geometry.straight. cbn [fst snd]. split.
  - simpl. intros H.
    repeat (destruct H as [[= <- <-] | H]; [reflexivity |]). destruct H.
  - intros H.
    assert (Hdr : dr = -1 \/ dr = 0 \/ dr = 1) by lia.
    assert (Hdc : dc = -1 \/ dc = 0 \/ dc = 1) by lia.
    destruct Hdr as [-> | [-> | ->]], Hdc as [-> | [-> | ->]];
      simpl in *; try lia; tauto.
Qed.

Lemma bishop_directions_spec (d : Z * Z) :
  In d bishop_directions <-> Geometry.diagonal d.
Proof.
  destruct d as [dr dc]. unfold Geometry.diagonal. cbn [fst snd]. split.
  - simpl. intros H.
    repeat (destruct H as [[= <- <-] | H]; [split; reflexivity |]).
    destruct H.
  - intros [H1 H2].
    assert (Hdr : dr = -1 \/ dr = 1) by lia.
    assert (Hdc : dc = -1 \/ dc = 1) by lia.
    destruct Hdr as [-> | ->], Hdc as [-> | ->]; simpl; tauto.
Qed.

Lemma queen_directions_spec (d : Z * Z) :
  In d queen_directions <-> Geometry.straight d \/ Geometry.diagonal d.
Proof.
  rewrite <- rook_directions_spec, <- bishop_directions_spec.
  change queen_directions with (rook_directions ++ bishop_directions).
  apply in_app_iff.
Qed.

Lemma candidate_moves_slider (att : square -> bool -> bool) (b : t)
  (row col : Z) (ao : bool) :
  let piece := cell (board b) (row, col) in
  (upper piece = "R"%char ->
   candidate_moves att b (row, col) ao
   = rays (board b) (isupper piece) row col rook_directions)
  /\ (upper piece = "B"%char ->
      candidate_moves att b (row, col) ao
      = rays (board b) (isupper piece) row col bishop_directions)
  /\ (upper piece = "Q"%char ->
      candidate_moves att b (row, col) ao
      = rays (board b) (isupper piece) row col queen_directions).
Proof.
  intros piece. unfold candidate_moves. fold piece.
  rewrite <- upper_dot.
  repeat split; intros ->; reflexivity.
Qed.

(** X10: the rook, the bishop and the queen slide. With
    [validate_pin=False], [get_valid_moves] returns a square exactly
    when it lies on the board some [k >= 1] steps from the piece along
    one of its directions (row or file for 'R', diagonal for 'B', either
    for 'Q'), every square passed on the way is empty, and the square
    itself is empty or holds a piece of the other case. The board is
    left as it was. *)
Theorem sliding_moves_spec (b : t) (pos : square) (ao : bool) :
  wf_grid (board b) ->
  Move._is_valid_position pos = true ->
  let piece := cell (board b) pos in
  upper piece = "R"%char \/ upper piece = "B"%char
  \/ upper piece = "Q"%char ->
  exists moves,
    get_valid_moves pos ao false b = (Ok moves, b)
    /\ forall d : square,
         In d moves
         <-> exists (dir : Z * Z) (k : Z),
               Geometry.slides (upper piece) dir
               /\ 1 <= k
               /\ d = Geometry.along pos dir k
               /\ Move._is_valid_position d = true
               /\ (forall j, 1 <= j < k ->
                     cell (board b) (Geometry.along pos dir j) = "."%char)
               /\ Geometry.landable (board b) (isupper piece) d.
Proof.
  intros _ Hpos piece Hletter. destruct pos as [row col].
  exists (candidate_moves (is_under_attack b) b (row, col) ao).
  split; [apply get_valid_moves_no_pin_total |].
  intros d.
  assert (Hrays : exists dirs,
             candidate_moves (is_under_attack b) b (row, col) ao
             = rays (board b) (isupper piece) row col dirs
             /\ forall dir, In dir dirs
                            <-> Geometry.slides (upper piece) dir).
  { destruct (candidate_moves_slider (is_under_attack b) b row col ao)
      as (HR & HB & HQ). fold piece in HR, HB, HQ.
    unfold Geometry.slides.
    destruct Hletter as [H | [H | H]].
    - exists rook_directions. split; [by apply HR |]. intros dir.
      rewrite rook_directions_spec, H.
      intuition (try discriminate; congruence).
    - exists bishop_directions. split; [by apply HB |]. intros dir.
      rewrite bishop_directions_spec, H.
      intuition (try discriminate; congruence).
    - exists queen_directions. split; [by apply HQ |]. intros dir.
      rewrite queen_directions_spec, H.
      intuition (try discriminate; congruence). }
  destruct Hrays as (dirs & -> & Hdirs).
  unfold rays. rewrite in_flat_map.
  apply (is_inside_true row col) in Hpos.
  assert (Hunit : forall dir, Geometry.slides (upper piece) dir ->
                    -1 <= fst dir <= 1 /\ -1 <= snd dir <= 1
                    /\ (fst dir <> 0 \/ snd dir <> 0)).
  { intros [dr dc]. unfold Geometry.slides, Geometry.straight,
      Geometry.diagonal. cbn [fst snd]. lia. }
  split.
  - intros ([dr dc] & Hdir & Hd). apply Hdirs in Hdir.
    apply ray_spec in Hd as (k & Hk & -> & Hin & Hbetween & Hland).
    exists (dr, dc), k. cbn [fst snd] in *.
    split; [assumption |]. split; [lia |].
    split; [reflexivity |]. split; [exact Hin |].
    split; [| assumption].
    intros j Hj. by apply Hbetween.
  - intros ([dr dc] & k & Hdir & Hk & -> & Hin & Hbetween & Hland).
    exists (dr, dc). split; [by apply Hdirs |].
    apply Hunit in Hdir. cbn [fst snd] in Hdir.
    unfold Geometry.along in *. cbn [fst snd] in *.
    apply (is_inside_true (row + k * dr) (col + k * dc)) in Hin as Hin'.
    apply ray_spec. exists k.
    split; [| split; [reflexivity |
                      split; [exact Hin | split; [| assumption]]]].
    + assert (dr = -1 \/ dr = 0 \/ dr = 1) as [-> | [-> | ->]] by lia;
        assert (dc = -1 \/ dc = 0 \/ dc = 1) as [-> | [-> | ->]] by lia;
        simpl; lia.
    + intros j Hj. split; [| by apply Hbetween].
      apply is_inside_true.
      assert (dr = -1 \/ dr = 0 \/ dr = 1) as [-> | [-> | ->]] by lia;
        assert (dc = -1 \/ dc = 0 \/ dc = 1) as [-> | [-> | ->]] by lia;
        lia.
Qed.

Lemma sliding_moves_spec_witness :
  exists moves,
    get_valid_moves (7, 7) false false Examples.castle_into_check
    = (Ok moves, Examples.castle_into_check)
    /\ forall d : square,
         In d moves
         <-> exists (dir : Z * Z) (k : Z),
               Geometry.slides "R" dir
               /\ 1 <= k
               /\ d = Geometry.along (7, 7) dir k
               /\ Move._is_valid_position d = true
               /\ (forall j, 1 <= j < k ->
                     cell (board Examples.castle_into_check)
                          (Geometry.along (7, 7) dir j) = "."%char)
               /\ Geometry.landable (board Examples.castle_into_check)
                    true d.
Proof.
  apply (sliding_moves_spec Examples.castle_into_check (7, 7) false).
  - split; [reflexivity | vm_compute; repeat constructor].
  - reflexivity.
  - left. reflexivity.
Defined.

Lemma steps_spec (g : grid) (w : bool) (row col : Z)
  (offsets : list (Z * Z)) (d : square) :
  In d (steps g w row col offsets)
  <-> In (fst d - row, snd d - col) offsets
      /\ is_inside (fst d) (snd d) = true
      /\ Geometry.landable g w d.
Proof.
  unfold steps. rewrite in_flat_map. split.
  - intros ([dr dc] & Hoff & Hd). cbn [fst snd] in Hd.
    destruct (is_inside _ _) eqn:Hin; [| destruct Hd].
    destruct (_ || _) eqn:Hland; [| destruct Hd].
    destruct Hd as [<- | []]. cbn [fst snd].
    replace (row + dr - row) with dr by lia.
    replace (col + dc - col) with dc by lia.
    split; [assumption |]. split; [assumption |]. by apply landable_test.
  - intros (Hoff & Hin & Hland). destruct d as [r' c'].
    cbn [fst snd] in *. exists (r' - row, c' - col).
    split; [assumption |]. cbn [fst snd].
    replace (row + (r' - row)) with r' by lia.
    replace (col + (c' - col)) with c' by lia.
    rewrite Hin. apply landable_test in Hland. rewrite Hland. by left.
Qed.

Lemma knight_offsets_spec (dr dc : Z) :
  In (dr, dc) knight_offsets <-> Z.abs dr * Z.abs dc = 2.
Proof.
  split.
  - simpl. intros H.
    repeat (destruct H as [[= <- <-] | H]; [reflexivity |]). destruct H.
  - intros H.
    pose proof (Z.abs_nonneg dr) as Ha0.
    pose proof (Z.abs_nonneg dc) as Hb0.
    assert (Hab : 1 <= Z.abs dr <= 2 /\ 1 <= Z.abs dc <= 2).
    { remember (Z.abs dr) as x. remember (Z.abs dc) as y.
      clear Heqx Heqy.
      assert (x <> 0) by (intros ->; lia).
      assert (y <> 0) by (intros ->; lia).
      assert (x <= 2).
      { destruct (Z_le_gt_dec x 2); [assumption |].
        pose proof (Z.mul_le_mono_nonneg_r 3 x y ltac:(lia) ltac:(lia)).
        lia. }
      assert (y <= 2).
      { destruct (Z_le_gt_dec y 2); [assumption |].
        pose proof (Z.mul_le_mono_nonneg_l 3 y x ltac:(lia) ltac:(lia)).
        lia. }
      lia. }
    assert (Hdr : dr = -2 \/ dr = -1 \/ dr = 1 \/ dr = 2) by lia.
    assert (Hdc : dc = -2 \/ dc = -1 \/ dc = 1 \/ dc = 2) by lia.
    destruct Hdr as [-> | [-> | [-> | ->]]],
             Hdc as [-> | [-> | [-> | ->]]];
      simpl in *; try lia; tauto.
Qed.

Lemma king_offsets_spec (dr dc : Z) :
  In (dr, dc) king_offsets <-> Z.max (Z.abs dr) (Z.abs dc) = 1.
Proof.
  split.
  - simpl. intros H.
    repeat (destruct H as [[= <- <-] | H]; [reflexivity |]). destruct H.
  - intros H.
    assert (Hdr : dr = -1 \/ dr = 0 \/ dr = 1) by lia.
    assert (Hdc : dc = -1 \/ dc = 0 \/ dc = 1) by lia.
    destruct Hdr as [-> | [-> | ->]], Hdc as [-> | [-> | ->]];
      simpl in *; try lia; tauto.
Qed.

Lemma candidate_moves_knight (att : square -> bool -> bool) (b : t)
  (row col : Z) (ao : bool) :
  upper (cell (board b) (row, col)) = "N"%char ->
  candidate_moves att b (row, col) ao
  = steps (board b) (isupper (cell (board b) (row, col))) row col
          knight_offsets.
Proof.
  intros HN. unfold candidate_moves. rewrite <- upper_dot, HN. reflexivity.
Qed.

(** X11: the knight jumps. With [validate_pin=False], [get_valid_moves]
    returns for a knight exactly the squares of the board whose row and
    column distances from it multiply to 2 and which are empty or hold a
    piece of the other case; what stands in between does not matter. *)
Theorem knight_moves_spec (b : t) (pos : square) (ao : bool) :
  wf_grid (board b) ->
  Move._is_valid_position pos = true ->
  let piece := cell (board b) pos in
  upper piece = "N"%char ->
  exists moves,
    get_valid_moves pos ao false b = (Ok moves, b)
    /\ forall d : square,
         In d moves
         <-> Z.abs (fst d - fst pos) * Z.abs (snd d - snd pos) = 2
             /\ Move._is_valid_position d = true
             /\ Geometry.landable (board b) (isupper piece) d.
Proof.
  intros _ _ piece HN. destruct pos as [row col].
  exists (candidate_moves (is_under_attack b) b (row, col) ao).
  split; [apply get_valid_moves_no_pin_total |].
  intros d. rewrite candidate_moves_knight by assumption.
  rewrite steps_spec, knight_offsets_spec. by destruct d.
Qed.

Lemma knight_moves_spec_witness :
  exists moves,
    get_valid_moves (7, 6) false false (init None) = (Ok moves, init None)
    /\ forall d : square,
         In d moves
         <-> Z.abs (fst d - 7) * Z.abs (snd d - 6) = 2
             /\ Move._is_valid_position d = true
             /\ Geometry.landable (board (init None)) true d.
Proof.
  apply (knight_moves_spec (init None) (7, 6) false).
  - split; [reflexivity | repeat constructor].
  - reflexivity.
  - reflexivity.
Defined.

(** X12: the squares a king attacks. With [attack_moves_only=True] and
    [validate_pin=False], [get_valid_moves] returns for a king exactly
    the squares of the board next to it, in a row, file or diagonal,
    that are empty or hold a piece of the other case; no castling square
    is among them. *)
Theorem king_attack_spec (b : t) (pos : square) :
  wf_grid (board b) ->
  Move._is_valid_position pos = true ->
  let piece := cell (board b) pos in
  upper piece = "K"%char ->
  exists moves,
    get_valid_moves pos true false b = (Ok moves, b)
    /\ forall d : square,
         In d moves
         <-> Z.max (Z.abs (fst d - fst pos)) (Z.abs (snd d - snd pos)) = 1
             /\ Move._is_valid_position d = true
             /\ Geometry.landable (board b) (isupper piece) d.
Proof.
  intros _ _ piece HK. destruct pos as [row col].
  exists (candidate_moves (is_under_attack b) b (row, col) true).
  split; [apply get_valid_moves_no_pin_total |].
  intros d. rewrite candidate_moves_king
    by (fold piece; rewrite HK; reflexivity).
  cbn [negb]. rewrite app_nil_r, steps_spec, king_offsets_spec.
  by destruct d.
Qed.

Lemma king_attack_spec_witness :
  exists moves,
    get_valid_moves (7, 4) true false Examples.castle_into_check
    = (Ok moves, Examples.castle_into_check)
    /\ forall d : square,
         In d moves
         <-> Z.max (Z.abs (fst d - 7)) (Z.abs (snd d - 4)) = 1
             /\ Move._is_valid_position d = true
             /\ Geometry.landable (board Examples.castle_into_check)
                  true d.
Proof.
  apply (king_attack_spec Examples.castle_into_check (7, 4)).
  - split; [reflexivity | vm_compute; repeat constructor].
  - reflexivity.
  - reflexivity.
Defined.

(** X13: the pawn. With [validate_pin=False], [get_valid_moves] returns
    for a pawn exactly: the square one row ahead if it is on the board
    and empty; the square two rows ahead if the pawn is on its starting
    row and both squares ahead are empty; and each square one row ahead
    and one file aside that is on the board and either holds a piece of
    the other case or is the en-passant target, whatever stands there.
    White goes towards row 0, black towards row 7;
    [attack_moves_only=True] leaves the two advances out. *)
Theorem pawn_moves_spec (b : t) (pos : square) (ao : bool) :
  wf_grid (board b) ->
  Move._is_valid_position pos = true ->
  let piece := cell (board b) pos in
  let w := isupper piece in
  let dir := if w then -1 else 1 in
  let start := if w then 6 else 1 in
  upper piece = "P"%char ->
  exists moves,
    get_valid_moves pos ao false b = (Ok moves, b)
    /\ forall d : square,
         In d moves
         <-> (ao = false /\ d = (fst pos + dir, snd pos)
              /\ Move._is_valid_position d = true
              /\ cell (board b) d = "."%char)
             \/ (ao = false /\ fst pos = start
                 /\ d = (fst pos + 2 * dir, snd pos)
                 /\ cell (board b) (fst pos + dir, snd pos) = "."%char
                 /\ cell (board b) d = "."%char)
             \/ (fst d = fst pos + dir
                 /\ (snd d = snd pos - 1 \/ snd d = snd pos + 1)
                 /\ Move._is_valid_position d = true
                 /\ ((cell (board b) d <> "."%char
                      /\ isupper (cell (board b) d) <> w)
                     \/ en_passant b = Some d)).
Proof.
  intros _ Hpos piece w dir start HP. destruct pos as [row col].
  exists (candidate_moves (is_under_attack b) b (row, col) ao).
  split; [apply get_valid_moves_no_pin_total |].
  intros d. rewrite candidate_moves_pawn
    by (fold piece; rewrite HP; reflexivity).
  fold piece. fold w. cbn [fst snd].
  apply (is_inside_true row col) in Hpos.
  unfold pawn_moves. fold dir. fold start.
  rewrite in_app_iff, in_flat_map. split.
  - intros [Hadv | (dc & Hdc & Hcap)].
    + destruct ao; [destruct Hadv |]. cbn [negb] in Hadv.
      destruct (is_inside (row + dir) col) eqn:Hin1; [| destruct Hadv].
      destruct (Ascii.eqb (cell (board b) (row + dir, col)) ".") eqn:He1;
        [| destruct Hadv].
      apply Ascii.eqb_eq in He1. cbn [andb] in Hadv.
      destruct Hadv as [<- | Hadv]; [left; auto |].
      destruct (Z.eqb_spec row start) as [Hstart |]; [| destruct Hadv].
      destruct (is_inside (row + 2 * dir) col) eqn:Hin2; [| destruct Hadv].
      destruct (Ascii.eqb (cell (board b) (row + 2 * dir, col)) ".")
        eqn:He2; [| destruct Hadv].
      apply Ascii.eqb_eq in He2. destruct Hadv as [<- | []].
      right. left. auto.
    + right. right.
      assert (Hdc' : dc = -1 \/ dc = 1) by (simpl in Hdc; lia).
      destruct (is_inside (row + dir) (col + dc)) eqn:Hin;
        [| destruct Hcap].
      apply in_app_iff in Hcap as [Hcap | Hcap].
      * destruct (negb (Ascii.eqb _ _)) eqn:Hne; [| destruct Hcap].
        destruct (negb (Bool.eqb _ _)) eqn:Hopp; [| destruct Hcap].
        destruct Hcap as [<- | []]. cbn [fst snd].
        split; [reflexivity |]. split; [lia |]. split; [exact Hin |].
        left. apply negb_true_iff in Hne, Hopp. split.
        -- intros H. apply Ascii.eqb_eq in H. congruence.
        -- by apply eqb_false_iff.
      * destruct (en_passant b) as [[er ec] |] eqn:Hep; [| destruct Hcap].
        cbn [fst snd] in Hcap.
        destruct (Z.eqb_spec (row + dir) er) as [<- |]; [| destruct Hcap].
        destruct (Z.eqb_spec (col + dc) ec) as [<- |]; [| destruct Hcap].
        destruct Hcap as [<- | []]. cbn [fst snd].
        split; [reflexivity |]. split; [lia |]. split; [exact Hin |].
        by right.
  - intros [(-> & -> & Hin & He) | [(-> & Hstart & -> & He1 & He2)
                                   | (Hr & Hc & Hin & Hcap)]].
    + left. cbn [negb]. change (is_inside (row + dir) col = true) in Hin.
      rewrite Hin. apply Ascii.eqb_eq in He. rewrite He. by left.
    + left. cbn [negb].
      assert (Hin1 : is_inside (row + dir) col = true)
        by (apply is_inside_true; subst start dir; destruct w; lia).
      assert (Hin2 : is_inside (row + 2 * dir) col = true)
        by (apply is_inside_true; subst start dir; destruct w; lia).
      rewrite Hin1, Hin2. apply Ascii.eqb_eq in He1, He2.
      rewrite He1, He2. cbn [andb].
      destruct (Z.eqb_spec row start); [| contradiction]. right. by left.
    + right. destruct d as [r' c']. cbn [fst snd] in *. subst r'.
      exists (c' - col). split; [simpl; lia |].
      replace (col + (c' - col)) with c' by lia.
      change (is_inside (row + dir) c' = true) in Hin. rewrite Hin.
      apply in_app_iff. destruct Hcap as [[Hne Hopp] | Hep].
      * left. apply Ascii.eqb_neq in Hne. rewrite Hne.
        apply eqb_false_iff in Hopp. rewrite Hopp. by left.
      * right. rewrite Hep. cbn [fst snd]. rewrite !Z.eqb_refl. by left.
Qed.

Lemma pawn_moves_spec_witness :
  exists moves,
    get_valid_moves (6, 4) false false (init None) = (Ok moves, init None)
    /\ forall d : square,
         In d moves
         <-> (false = false /\ d = (6 + -1, 4)
              /\ Move._is_valid_position d = true
              /\ cell (board (init None)) d = "."%char)
             \/ (false = false /\ 6 = 6
                 /\ d = (6 + 2 * -1, 4)
                 /\ cell (board (init None)) (6 + -1, 4) = "."%char
                 /\ cell (board (init None)) d = "."%char)
             \/ (fst d = 6 + -1
                 /\ (snd d = 4 - 1 \/ snd d = 4 + 1)
                 /\ Move._is_valid_position d = true
                 /\ ((cell (board (init None)) d <> "."%char
                      /\ isupper (cell (board (init None)) d) <> true)
                     \/ en_passant (init None) = Some d)).
Proof.
  apply (pawn_moves_spec (init None) (6, 4) false).
  - split; [reflexivity | repeat constructor].
  - reflexivity.
  - reflexivity.
Defined.

(** ** What [get_valid_moves] never returns *)

Lemma pawn_moves_landable (b : t) (w : bool) (row col : Z) (ao : bool)
  (d : square) :
  In d (pawn_moves b w row col ao) ->
  Geometry.landable (board b) w d \/ en_passant b = Some d.
Proof.
  unfold pawn_moves. rewrite in_app_iff, in_flat_map.
  intros [Hd | (dc & _ & Hd)].
  - left. left. destruct (negb ao); [| destruct Hd].
    destruct (is_inside _ col && _) eqn:H1; [| destruct Hd].
    apply andb_true_iff in H1 as [_ H1]. apply Ascii.eqb_eq in H1.
    destruct Hd as [<- | Hd]; [assumption |].
    destruct (row =? _); [| destruct Hd].
    destruct (is_inside _ col && _) eqn:H2; [| destruct Hd].
    apply andb_true_iff in H2 as [_ H2]. apply Ascii.eqb_eq in H2.
    destruct Hd as [<- | []]. assumption.
  - destruct (is_inside _ _); [| destruct Hd].
    apply in_app_iff in Hd as [Hd | Hd].
    + destruct (negb (Ascii.eqb _ _) && negb (Bool.eqb _ _)) eqn:Hopp;
        [| destruct Hd].
      apply andb_true_iff in Hopp as [_ Hopp].
      destruct Hd as [<- | []]. left. right.
      apply negb_true_iff in Hopp. by apply eqb_false_iff.
    + destruct (en_passant b) as [[er ec] |]; [| destruct Hd].
      cbn [fst snd] in Hd.
      destruct ((_ =? er) && (_ =? ec)) eqn:Hep; [| destruct Hd].
      apply andb_true_iff in Hep as [Hr Hc].
      apply Z.eqb_eq in Hr, Hc. subst er ec.
      destruct Hd as [<- | []]. by right.
Qed.

Lemma castling_moves_empty (att : square -> bool -> bool) (b : t)
  (w : bool) (row col : Z) (d : square) :
  In d (castling_moves att b w row col) -> cell (board b) d = "."%char.
Proof.
  unfold castling_moves.
  destruct (w && (row =? 7) && (col =? 4)).
  - rewrite in_app_iff, !In_singleton_if, !andb_true_iff, !Ascii.eqb_eq.
    intros [[H <-] | [H <-]]; tauto.
  - destruct (negb w && (row =? 0) && (col =? 4)); [| intros []].
    rewrite in_app_iff, !In_singleton_if, !andb_true_iff, !Ascii.eqb_eq.
    intros [[H <-] | [H <-]]; tauto.
Qed.

Lemma candidate_moves_landable (att : square -> bool -> bool) (b : t)
  (pos : square) (ao : bool) (d : square) :
  In d (candidate_moves att b pos ao) ->
  Geometry.landable (board b) (isupper (cell (board b) pos)) d
  \/ (upper (cell (board b) pos) = "P"%char /\ en_passant b = Some d).
Proof.
  destruct pos as [row col]. unfold candidate_moves.
  destruct (Ascii.eqb (cell _ _) "."); [intros [] |].
  destruct (Ascii.eqb _ "P") eqn:HP.
  { apply Ascii.eqb_eq in HP. intros Hd.
    apply pawn_moves_landable in Hd. tauto. }
  assert (Hrays : forall dirs,
             In d (rays (board b) (isupper (cell (board b) (row, col)))
                        row col dirs) ->
             Geometry.landable (board b)
               (isupper (cell (board b) (row, col))) d).
  { intros dirs. unfold rays. rewrite in_flat_map.
    intros (dir & _ & Hd).
    by apply ray_spec in Hd as (_ & _ & _ & _ & _ & Hland). }
  destruct (Ascii.eqb _ "N");
    [intros Hd; left; by apply steps_spec in Hd as (_ & _ & Hland) |].
  destruct (Ascii.eqb _ "R"); [intros Hd; left; by eapply Hrays |].
  destruct (Ascii.eqb _ "B"); [intros Hd; left; by eapply Hrays |].
  destruct (Ascii.eqb _ "Q"); [intros Hd; left; by eapply Hrays |].
  destruct (Ascii.eqb _ "K"); [| intros []].
  rewrite in_app_iff.
  intros [Hd | Hd];
    [left; by apply steps_spec in Hd as (_ & _ & Hland) |].
  destruct (negb ao); [| destruct Hd].
  left. left. eapply castling_moves_empty; eauto.
Qed.

(** X14: [get_valid_moves] never sends a piece onto a piece of its own
    case, with one exception: every square it returns was empty before
    the call or held a piece of the other case, unless the piece is a
    pawn and the square is the en-passant target, which the pawn is
    offered whatever stands on it. *)
Theorem get_valid_moves_never_own_piece (b b' : t) (pos : square)
  (ao vp : bool) (moves : list square) (d : square) :
  wf_grid (board b) ->
  Move._is_valid_position pos = true ->
  get_valid_moves pos ao vp b = (Ok moves, b') ->
  In d moves ->
  Geometry.landable (board b) (isupper (cell (board b) pos)) d
  \/ (upper (cell (board b) pos) = "P"%char /\ en_passant b = Some d).
Proof.
  intros _ _ Hgv Hd.
  eapply get_valid_moves_subset in Hgv; [| exact Hd].
  by apply candidate_moves_landable in Hgv.
Qed.

Lemma get_valid_moves_never_own_piece_witness :
  Geometry.landable (board (init None))
    (isupper (cell (board (init None)) (7, 6))) (5, 5)
  \/ (upper (cell (board (init None)) (7, 6)) = "P"%char
      /\ en_passant (init None) = Some (5, 5)).
Proof.
  apply (get_valid_moves_never_own_piece (init None) (init None) (7, 6)
           false true [(5, 7); (5, 5)] (5, 5)).
  - split; [reflexivity | repeat constructor].
  - reflexivity.
  - vm_compute. reflexivity.
  - right. left. reflexivity.
Defined.

Lemma candidate_moves_not_source (att : square -> bool -> bool) (b : t)
  (pos : square) (ao : bool) :
  ~ In pos (candidate_moves att b pos ao).
Proof.
  destruct pos as [row col]. unfold candidate_moves.
  destruct (Ascii.eqb (cell _ _) "."); [intros [] |].
  destruct (Ascii.eqb _ "P").
  { intros H. apply pawn_moves_shape in H. destruct (isupper _); lia. }
  assert (Hsteps : forall offs,
             ~ In (0, 0) offs ->
             ~ In (row, col)
                 (steps (board b) (isupper (cell (board b) (row, col)))
                        row col offs)).
  { intros offs Hoff H. apply steps_spec in H as (H & _). cbn [fst snd] in H.
    by rewrite !Z.sub_diag in H. }
  assert (Hrays : forall dirs,
             ~ In (0, 0) dirs ->
             ~ In (row, col)
                 (rays (board b) (isupper (cell (board b) (row, col)))
                       row col dirs)).
  { intros dirs Hdirs. unfold rays. rewrite in_flat_map.
    intros ([dr dc] & Hdir & H).
    apply ray_spec in H as (k & Hk & [= Hr Hc] & _). cbn [fst snd] in *.
    assert (k * dr = 0) as [? | ->]%Z.mul_eq_0 by lia; [lia |].
    assert (k * dc = 0) as [? | ->]%Z.mul_eq_0 by lia; [lia |].
    contradiction. }
  destruct (Ascii.eqb _ "N");
    [apply Hsteps; simpl; intuition discriminate |].
  destruct (Ascii.eqb _ "R");
    [apply Hrays; simpl; intuition discriminate |].
  destruct (Ascii.eqb _ "B");
    [apply Hrays; simpl; intuition discriminate |].
  destruct (Ascii.eqb _ "Q");
    [apply Hrays; simpl; intuition discriminate |].
  destruct (Ascii.eqb _ "K"); [| intros []].
  rewrite in_app_iff. intros [H | H].
  - revert H. apply Hsteps. simpl. intuition discriminate.
  - destruct (negb ao); [| destruct H].
    unfold castling_moves in H.
    destruct (_ && (row =? 7) && (col =? 4)) eqn:Hw.
    + apply andb_true_iff in Hw as [_ Hc]. apply Z.eqb_eq in Hc. subst col.
      apply in_app_iff in H. rewrite !In_singleton_if in H.
      destruct H as [[_ [= _ ?]] | [_ [= _ ?]]]; lia.
    + destruct (_ && (row =? 0) && (col =? 4)) eqn:Hb; [| destruct H].
      apply andb_true_iff in Hb as [_ Hc]. apply Z.eqb_eq in Hc. subst col.
      apply in_app_iff in H. rewrite !In_singleton_if in H.
      destruct H as [[_ [= _ ?]] | [_ [= _ ?]]]; lia.
Qed.

(** X15: [get_valid_moves] never returns the square the piece stands
    on. *)
Theorem get_valid_moves_never_source (b b' : t) (pos : square)
  (ao vp : bool) (moves : list square) :
  wf_grid (board b) ->
  Move._is_valid_position pos = true ->
  get_valid_moves pos ao vp b = (Ok moves, b') ->
  ~ In pos moves.
Proof.
  intros _ _ Hgv Hin.
  eapply get_valid_moves_subset in Hgv; [| exact Hin].
  by apply candidate_moves_not_source in Hgv.
Qed.

Lemma get_valid_moves_never_source_witness :
  ~ In (7, 6) [(5, 7); (5, 5)].
Proof.
  apply (get_valid_moves_never_source (init None) (init None) (7, 6)
           false true [(5, 7); (5, 5)]).
  - split; [reflexivity | repeat constructor].
  - reflexivity.
  - vm_compute. reflexivity.
Defined.

Lemma get_valid_moves_empty (b : t) (pos : square) (ao vp : bool) :
  (forall letter, In letter ["P"; "N"; "R"; "B"; "Q"; "K"]%char ->
                  upper (cell (board b) pos) <> letter) ->
  get_valid_moves pos ao vp b = (Ok [], b).
Proof.
  intros Hnone. rewrite get_valid_moves_unfold. cbn zeta.
  assert (Hc : candidate_moves (is_under_attack b) b pos ao = []).
  { destruct pos as [row col]. unfold candidate_moves.
    destruct (Ascii.eqb (cell _ _) "."); [reflexivity |].
    repeat match goal with
           | |- context [Ascii.eqb (upper ?c) ?l] =>
               let H := fresh in
               destruct (Ascii.eqb (upper c) l) eqn:H;
               [ apply Ascii.eqb_eq in H; exfalso;
                 apply (Hnone l); [simpl; tauto | exact H] | ]
           end.
    reflexivity. }
  rewrite Hc. by destruct vp.
Qed.

(** X16: for a square of an 8x8 grid that is empty, or holds a character
    that is none of the six piece letters in either case,
    [get_valid_moves] returns the empty list, raises nothing and leaves
    the board as it was, whatever the flags. *)
Theorem get_valid_moves_no_piece (b : t) (pos : square) (ao vp : bool) :
  wf_grid (board b) ->
  Move._is_valid_position pos = true ->
  (forall letter, In letter ["P"; "N"; "R"; "B"; "Q"; "K"]%char ->
                  upper (cell (board b) pos) <> letter) ->
  get_valid_moves pos ao vp b = (Ok [], b).
Proof. intros _ _. apply get_valid_moves_empty. Qed.

Lemma get_valid_moves_no_piece_witness :
  get_valid_moves (4, 4) false true (init None) = (Ok [], init None).
Proof.
  apply (get_valid_moves_no_piece (init None) (4, 4) false true).
  - split; [reflexivity | repeat constructor].
  - reflexivity.
  - intros letter Hl. simpl in Hl.
    repeat (destruct Hl as [<- | Hl]; [discriminate |]). destruct Hl.
Defined.

Lemma pawn_moves_attack_subset (b : t) (w : bool) (row col : Z)
  (d : square) :
  In d (pawn_moves b w row col true) -> In d (pawn_moves b w row col false).
Proof.
  unfold pawn_moves. rewrite !in_app_iff. cbn [negb].
  intros [[] | H]. by right.
Qed.

Lemma candidate_moves_attack_subset (att : square -> bool -> bool) (b : t)
  (pos : square) (d : square) :
  In d (candidate_moves att b pos true) ->
  In d (candidate_moves att b pos false).
Proof.
  destruct pos as [row col]. unfold candidate_moves.
  destruct (Ascii.eqb (cell _ _) "."); [intros [] |].
  destruct (Ascii.eqb _ "P"); [apply pawn_moves_attack_subset |].
  destruct (Ascii.eqb _ "N"); [auto |].
  destruct (Ascii.eqb _ "R"); [auto |].
  destruct (Ascii.eqb _ "B"); [auto |].
  destruct (Ascii.eqb _ "Q"); [auto |].
  destruct (Ascii.eqb _ "K"); [| intros []].
  cbn [negb]. rewrite app_nil_r, in_app_iff. auto.
Qed.

(** X17: [attack_moves_only=True] only leaves squares out. On an 8x8
    grid, for a square of the board and with [validate_pin=False], every
    square returned with the flag set is
    also returned without it, and for a knight, rook, bishop or queen
    the two lists are the same. *)
Theorem attack_moves_only_restricts (b : t) (pos : square) :
  wf_grid (board b) ->
  Move._is_valid_position pos = true ->
  exists attack full,
    get_valid_moves pos true false b = (Ok attack, b)
    /\ get_valid_moves pos false false b = (Ok full, b)
    /\ (forall d, In d attack -> In d full)
    /\ (In (upper (cell (board b) pos)) ["N"; "R"; "B"; "Q"]%char ->
        attack = full).
Proof.
  intros _ _.
  exists (candidate_moves (is_under_attack b) b pos true),
         (candidate_moves (is_under_attack b) b pos false).
  split; [apply get_valid_moves_no_pin_total |].
  split; [apply get_valid_moves_no_pin_total |].
  split; [intros d; apply candidate_moves_attack_subset |].
  intros Hl. destruct pos as [row col]. unfold candidate_moves.
  destruct (Ascii.eqb (cell _ _) "."); [reflexivity |].
  cbn [In] in Hl.
  destruct Hl as [<- | [<- | [<- | [<- | []]]]]; reflexivity.
Qed.

Lemma attack_moves_only_restricts_witness :
  exists attack full,
    get_valid_moves (6, 4) true false (init None) = (Ok attack, init None)
    /\ get_valid_moves (6, 4) false false (init None) = (Ok full, init None)
    /\ (forall d, In d attack -> In d full)
    /\ (In (upper (cell (board (init None)) (6, 4)))
           ["N"; "R"; "B"; "Q"]%char ->
        attack = full).
Proof.
  apply (attack_moves_only_restricts (init None) (6, 4)).
  - split; [reflexivity | repeat constructor].
  - reflexivity.
Defined.


(** ** The pin section and [make_raw_move], exactly *)

Lemma remove_first_sublist (p : square) (l : list square) :
  sublist (remove_first p l) l.
Proof.
  induction l as [| q l IH]; simpl; [constructor |].
  destruct (square_eqb q p); [by apply sublist_cons | by apply sublist_skip].
Qed.

Lemma pin_loop_sublist (pos : square) :
  forall (fuel i : nat) (moves res : list square) (b b' : t),
    pin_loop fuel pos i moves b = (Ok res, b') -> sublist res moves.
Proof.
  induction fuel as [| fuel IH]; intros i moves res b b'.
  - by intros [= <- <-].
  - rewrite pin_loop_step.
    destruct (moves !! i) as [move |]; [| by intros [= <- <-]].
    destruct (Move.init pos move None); [| discriminate].
    cbn zeta. destruct (in_check _ _) as [chk |]; [| discriminate].
    destruct (Move.init move pos None); [| discriminate].
    intros H. apply IH in H.
    destruct chk; [| assumption].
    etrans; [exact H | apply remove_first_sublist].
Qed.

(** X18: the pin section only deletes. What [get_valid_moves] returns
    with [validate_pin=True] is what it returns with
    [validate_pin=False] with some elements left out and the order
    kept. *)
Theorem validate_pin_only_deletes (b b' : t) (pos : square) (ao : bool)
  (moves : list square) :
  wf_grid (board b) ->
  Move._is_valid_position pos = true ->
  get_valid_moves pos ao true b = (Ok moves, b') ->
  exists candidates,
    get_valid_moves pos ao false b = (Ok candidates, b)
    /\ sublist moves candidates.
Proof.
  intros _ _ Hgv. exists (candidate_moves (is_under_attack b) b pos ao).
  split; [apply get_valid_moves_no_pin_total |].
  rewrite get_valid_moves_unfold in Hgv. cbn zeta in Hgv.
  eapply pin_loop_sublist; eauto.
Qed.

Lemma validate_pin_only_deletes_witness :
  exists candidates,
    get_valid_moves (2, 2) false false Examples.black_in_check_position
    = (Ok candidates, Examples.black_in_check_position)
    /\ sublist [(4, 1); (0, 1); (3, 4); (1, 4)] candidates.
Proof.
  apply (validate_pin_only_deletes Examples.black_in_check_position
           (snd (get_valid_moves (2, 2) false true
                   Examples.black_in_check_position))
           (2, 2) false).
  - split; [reflexivity | repeat constructor].
  - reflexivity.
  - vm_compute. reflexivity.
Defined.

(** Two 8x8 grids with the same piece on every square are the same
    list of lists. *)
Lemma grid_ext (g g' : grid) :
  wf_grid g -> wf_grid g' ->
  (forall s, cell g s = cell g' s) -> g = g'.
Proof.
  intros Hwf Hwf' Hcell. apply list_eq_same_length with 8%nat;
    [apply Hwf' | apply Hwf |].
  intros i row row' Hi Hrow Hrow'.
  assert (Hl : length row = 8%nat).
  { destruct Hwf as [_ H]. rewrite Forall_forall in H. apply H.
    eapply list_elem_of_lookup_2; eauto. }
  assert (Hl' : length row' = 8%nat).
  { destruct Hwf' as [_ H]. rewrite Forall_forall in H. apply H.
    eapply list_elem_of_lookup_2; eauto. }
  apply list_eq_same_length with 8%nat; [assumption | assumption |].
  intros j x y Hj Hx Hy.
  specialize (Hcell (Z.of_nat i, Z.of_nat j)). unfold cell in Hcell.
  replace (is_inside (Z.of_nat i) (Z.of_nat j)) with true in Hcell
    by (symmetry; apply is_inside_true; lia).
  rewrite !Nat2Z.id, Hrow, Hrow', Hx, Hy in Hcell. exact Hcell.
Qed.

(** X19: a [make_raw_move] followed by the [make_raw_move] back. On an
    8x8 grid and for two squares of the board, the grid is as it was
    exactly when the target was empty or is the source itself;
    otherwise the piece that stood on the target is gone and nothing
    else has changed. *)
Theorem raw_move_and_back (g : grid) (src dst : square) :
  wf_grid g ->
  Move._is_valid_position src = true ->
  Move._is_valid_position dst = true ->
  let g' := raw_move (raw_move g (Move.mk src dst None))
                     (Move.mk dst src None) in
  (g' = g <-> cell g dst = "."%char \/ dst = src)
  /\ (forall s, s <> dst -> cell g' s = cell g s)
  /\ (dst <> src -> cell g' dst = "."%char).
Proof.
  intros Hwf Hs Hd g'.
  assert (Hcell : forall s, cell g' s =
                            if decide (s = src) then cell g src
                            else if decide (s = dst) then "."%char
                                 else cell g s)
    by (intros s; by apply cell_probe_undo).
  split; [| split].
  - split.
    + intros Heq. destruct (decide (dst = src)) as [? | Hne]; [by right |].
      left. rewrite <- Heq, Hcell.
      rewrite decide_False by assumption. by rewrite decide_True.
    + intros Hcase. apply grid_ext; [by do 2 apply wf_raw_move | assumption |].
      intros s. rewrite Hcell.
      destruct (decide (s = src)) as [-> | ?]; [reflexivity |].
      destruct (decide (s = dst)) as [-> | ?]; [| reflexivity].
      destruct Hcase as [-> | ->]; [reflexivity | contradiction].
  - intros s Hne. rewrite Hcell.
    destruct (decide (s = src)) as [-> | ?]; [reflexivity |].
    by rewrite decide_False.
  - intros Hne. rewrite Hcell.
    rewrite decide_False by assumption. by rewrite decide_True.
Qed.

Lemma raw_move_and_back_witness :
  cell (raw_move (raw_move (board Examples.after_e4_d5)
                    (Move.mk (4, 4) (3, 3) None))
          (Move.mk (3, 3) (4, 4) None)) (3, 3) = "."%char.
Proof.
  refine (proj2 (proj2 (raw_move_and_back (board Examples.after_e4_d5)
                          (4, 4) (3, 3) _ _ _)) _).
  - split; [reflexivity | vm_compute; repeat constructor].
  - reflexivity.
  - reflexivity.
  - discriminate.
Defined.

Lemma set_board_same (b b' : t) :
  b' = set_board (board b') b -> board b' = board b -> b' = b.
Proof. intros -> H. destruct b. simpl in *. by rewrite H. Qed.

(** X20: what [get_valid_moves] does to the board. On an 8x8 grid and
    for a square of the board, a call that returns leaves every
    attribute but the grid as it was; a square of the grid holds what
    it held, unless it is one of the candidate destinations and held a
    piece, in which case it may have been emptied; so when no candidate
    destination holds a piece the whole board is as before the call. *)
Theorem get_valid_moves_board_effect (b b' : t) (pos : square)
  (ao vp : bool) (moves : list square) :
  wf_grid (board b) ->
  Move._is_valid_position pos = true ->
  get_valid_moves pos ao vp b = (Ok moves, b') ->
  b' = set_board (board b') b
  /\ (forall s,
        cell (board b') s = cell (board b) s
        \/ (cell (board b') s = "."%char
            /\ cell (board b) s <> "."%char
            /\ exists candidates,
                 get_valid_moves pos ao false b = (Ok candidates, b)
                 /\ In s candidates))
  /\ ((forall candidates d,
          get_valid_moves pos ao false b = (Ok candidates, b) ->
          In d candidates -> cell (board b) d = "."%char) ->
      b' = b).
Proof.
  intros Hwf Hpos Hgv.
  pose proof (get_valid_moves_fields _ _ _ _ _ _ Hgv) as Hfields.
  destruct (get_valid_moves_frame _ _ _ _ _ _ Hwf Hgv) as (Hwf' & _ & Hfr).
  assert (Hout : forall s,
             ~ In s (candidate_moves (is_under_attack b) b pos ao) ->
             cell (board b') s = cell (board b) s).
  { rewrite get_valid_moves_unfold in Hgv. cbn zeta in Hgv.
    destruct vp; [| injection Hgv as <- <-; auto].
    eapply pin_loop_untouched; eauto. }
  assert (Hcells : forall s,
             cell (board b') s = cell (board b) s
             \/ (cell (board b') s = "."%char
                 /\ cell (board b) s <> "."%char
                 /\ In s (candidate_moves (is_under_attack b) b pos ao))).
  { intros s.
    destruct (mem s (candidate_moves (is_under_attack b) b pos ao))
      eqn:Hmem.
    2: { left. apply Hout. intros Hin. apply mem_In in Hin. congruence. }
    apply mem_In in Hmem.
    destruct (Hfr s) as [H | H]; [by left |].
    destruct (ascii_dec (cell (board b) s) ".") as [He | Hne].
    - left. congruence.
    - right. auto. }
  split; [assumption |]. split.
  - intros s. destruct (Hcells s) as [H | (H1 & H2 & H3)]; [by left |].
    right. split; [assumption |]. split; [assumption |].
    eexists. split; [apply get_valid_moves_no_pin_total | assumption].
  - intros Hempty. apply set_board_same; [assumption |].
    apply grid_ext; [assumption | assumption |].
    intros s. destruct (Hcells s) as [H | (_ & H2 & H3)]; [assumption |].
    exfalso. apply H2.
    eapply Hempty; [apply get_valid_moves_no_pin_total | exact H3].
Qed.

Lemma get_valid_moves_board_effect_witness :
  snd (get_valid_moves (6, 4) false true (init None))
  = set_board (board (snd (get_valid_moves (6, 4) false true (init None))))
      (init None).
Proof.
  refine (proj1 (get_valid_moves_board_effect (init None)
                   (snd (get_valid_moves (6, 4) false true (init None)))
                   (6, 4) false true [(5, 4); (4, 4)] _ _ _)).
  - split; [reflexivity | repeat constructor].
  - reflexivity.
  - vm_compute. reflexivity.
Defined.

(** ** [make_move], outcome by outcome *)

Lemma Move_init_raises (p q : square) (e : exn) :
  Move.init p q None = Raise e -> e = ValueError OutOfRange.
Proof.
  unfold Move.init.
  destruct (Move._is_valid_position p); simpl; [| by intros [= <-]].
  destruct (Move._is_valid_position q); simpl; [discriminate |].
  by intros [= <-].
Qed.

(** The pin section raises only what [Move] and [in_check] raise, and
    whatever it does the grid stays 8x8. *)
Lemma pin_loop_outcome (pos : square) :
  forall (fuel i : nat) (moves : list square) (b b' : t)
         (r : res (list square)),
    pin_loop fuel pos i moves b = (r, b') ->
    (forall e, r = Raise e -> e = IndexError \/ e = ValueError OutOfRange)
    /\ (wf_grid (board b) -> wf_grid (board b')).
Proof.
  induction fuel as [| fuel IH]; intros i moves b b' r.
  - intros [= <- <-]. split; [discriminate | auto].
  - rewrite pin_loop_step.
    destruct (moves !! i) as [move |];
      [| intros [= <- <-]; split; [discriminate | auto]].
    destruct (Move.init pos move None) as [m1 | e1] eqn:H1.
    2: { intros [= <- <-]. split; [| auto].
         intros e [= <-]. right. eapply Move_init_raises; eauto. }
    cbn zeta. rewrite in_check_unfold.
    destruct (find _ _) as [| kp rest].
    { intros [= <- <-]. split; [intros e [= <-]; by left |].
      intros Hwf. by apply wf_raw_move. }
    destruct (Move.init move pos None) as [m2 | e2] eqn:H2.
    2: { intros [= <- <-]. split.
         - intros e [= <-]. right. eapply Move_init_raises; eauto.
         - intros Hwf. by apply wf_raw_move. }
    intros H. apply IH in H as [Hr Hwf]. split; [assumption |].
    intros Hwf0. apply Hwf. simpl. by do 2 apply wf_raw_move.
Qed.

Lemma get_valid_moves_outcome (pos : square) (ao vp : bool) (b b' : t)
  (r : res (list square)) :
  get_valid_moves pos ao vp b = (r, b') ->
  (forall e, r = Raise e -> e = IndexError \/ e = ValueError OutOfRange)
  /\ (wf_grid (board b) -> wf_grid (board b')).
Proof.
  rewrite get_valid_moves_unfold. cbn zeta. destruct vp.
  - apply pin_loop_outcome.
  - intros [= <- <-]. split; [discriminate | auto].
Qed.

Lemma in_check_raises (b : t) (white : bool) (e : exn) :
  in_check b white = Raise e -> e = IndexError.
Proof.
  rewrite in_check_unfold. destruct (find _ _); [| discriminate].
  by intros [= <-].
Qed.

Lemma py_getitem_raises {A : Type} (l : list A) (i : Z) (e : exn) :
  py_getitem l i = Raise e -> e = IndexError.
Proof.
  unfold py_getitem. destruct (_ && _); [| by intros [= <-]].
  destruct (l !! _); [discriminate | by intros [= <-]].
Qed.

(** Every way [make_move] can end. It ends as [get_valid_moves] did if
    that raised; with the illegal-move error, on the board that
    [get_valid_moves] left, if the test on its list fails; and
    otherwise with success or [IndexError], the grid being the one
    [get_valid_moves] left or that grid after the relocation. *)
Lemma make_move_outcomes (m : Move.t) (b b' : t) (r : res unit) :
  make_move m b = (r, b') ->
  exists r0 b1,
    get_valid_moves (Move.source m) false true b = (r0, b1)
    /\ ((exists e, r0 = Raise e /\ r = Raise e /\ b' = b1)
        \/ (exists moves,
              r0 = Ok moves
              /\ negb (mem (Move.target m) moves)
                 || Ascii.eqb (cell (board b1) (Move.source m)) "."
                 || negb (Bool.eqb (isupper (cell (board b1) (Move.source m)))
                                   (white_turn b1)) = true
              /\ r = Raise (ValueError IllegalMove) /\ b' = b1)
        \/ (exists moves,
              r0 = Ok moves
              /\ negb (mem (Move.target m) moves)
                 || Ascii.eqb (cell (board b1) (Move.source m)) "."
                 || negb (Bool.eqb (isupper (cell (board b1) (Move.source m)))
                                   (white_turn b1)) = false
              /\ (r = Ok tt \/ r = Raise IndexError)
              /\ (board b' = board b1
                  \/ board b' = raw_move (board b1) m))).
Proof.
  destruct m as [[sr sc] [dr dc] promo]. unfold make_move.
  cbn [Move.source Move.target fst snd].
  unfold bind at 1.
  destruct (get_valid_moves _ _ _ b) as [r0 b1] eqn:Hgv.
  intros H. exists r0, b1. split; [reflexivity |]. revert H.
  destruct r0 as [moves | e].
  2: { intros [= <- <-]. left. eauto. }
  unfold bind at 1. unfold self at 1.
  destruct (negb (mem (dr, dc) moves) || _ || _) eqn:Hval.
  { intros [= <- <-]. right. left. exists moves. auto. }
  intros H. right. right. exists moves. split; [reflexivity |].
  split; [exact Hval |]. revert H.
  unfold bind at 1. unfold modify at 1.
  unfold bind at 1. unfold lift at 1. cbn [white_turn set_en_passant board].
  destruct (py_getitem _ 0) as [king_pos | e] eqn:Hking.
  2: { apply py_getitem_raises in Hking as ->.
       intros [= <- <-]. split; [by right | by left]. }
  unfold make_raw_move, bind, modify, ret, self, lift.
  clear Hgv Hval Hking.
  destruct b1 as [g w c wc bc ep hc fn].
  cbn [board white_turn castling halfmove_clock fullmove_number] in *.
  destruct w.
  all: destruct (square_eqb king_pos (sr, sc));
    destruct (Ascii.eqb (upper (cell g (sr, sc))) "R" && _);
    destruct (Ascii.eqb (upper (cell g (sr, sc))) "R" && _);
    board_fields;
    destruct (Ascii.eqb (upper (cell (raw_move g _) (sr, sc))) "P" || _);
    board_fields;
    destruct (in_check _ _) as [chk | e] eqn:Hic;
    try (apply in_check_raises in Hic as ->);
    board_fields;
    intros [= <- <-]; (split; [auto | right; reflexivity]).
Qed.

(** X21: [make_move] fails with the illegal-move error exactly when
    [get_valid_moves] for the source returns a list that lacks the
    target, or the source square is empty, or its piece is not of the
    side to move. The board it leaves is the one [get_valid_moves] left:
    every attribute but the grid is as before the call. *)
Theorem make_move_illegal_iff (m : Move.t) (b b' : t) :
  wf_grid (board b) ->
  Move._is_valid_position (Move.source m) = true ->
  (make_move m b = (Raise (ValueError IllegalMove), b')
   <-> exists moves,
         get_valid_moves (Move.source m) false true b = (Ok moves, b')
         /\ (~ In (Move.target m) moves
             \/ cell (board b) (Move.source m) = "."%char
             \/ isupper (cell (board b) (Move.source m)) <> white_turn b))
  /\ (make_move m b = (Raise (ValueError IllegalMove), b') ->
      b' = set_board (board b') b).
Proof.
  intros Hwf Hsrc.
  assert (Htest : forall moves b1,
             get_valid_moves (Move.source m) false true b = (Ok moves, b1) ->
             negb (mem (Move.target m) moves)
             || Ascii.eqb (cell (board b1) (Move.source m)) "."
             || negb (Bool.eqb (isupper (cell (board b1) (Move.source m)))
                               (white_turn b1)) = true
             <-> ~ In (Move.target m) moves
                 \/ cell (board b) (Move.source m) = "."%char
                 \/ isupper (cell (board b) (Move.source m))
                    <> white_turn b).
  { intros moves b1 Hgv.
    destruct (get_valid_moves_frame _ _ _ _ _ _ Hwf Hgv) as (_ & Hpiece & _).
    apply get_valid_moves_fields in Hgv.
    assert (Hw : white_turn b1 = white_turn b) by (by rewrite Hgv).
    rewrite Hpiece, Hw, !orb_true_iff, !negb_true_iff, Ascii.eqb_eq,
      eqb_false_iff, <- not_true_iff_false, mem_In. tauto. }
  assert (Hiff : make_move m b = (Raise (ValueError IllegalMove), b')
                 <-> exists moves,
                      get_valid_moves (Move.source m) false true b
                      = (Ok moves, b')
                      /\ (~ In (Move.target m) moves
                          \/ cell (board b) (Move.source m) = "."%char
                          \/ isupper (cell (board b) (Move.source m))
                             <> white_turn b)).
  { split.
    - intros Hmv.
      destruct (make_move_outcomes _ _ _ _ Hmv)
        as (r0 & b1 & Hgv & [(e & -> & [= <-] & Heq)
                            | [(moves & -> & Hval & _ & Heq)
                              | (moves & _ & _ & [? | ?] & _)]]);
        try discriminate; subst b1.
      + apply get_valid_moves_outcome in Hgv as [Hr _].
        destruct (Hr _ eq_refl); discriminate.
      + exists moves. split; [assumption |]. by apply (Htest moves b').
    - intros (moves & Hgv & Hcase).
      apply (Htest moves b' Hgv) in Hcase.
      destruct m as [[sr sc] [dr dc] promo]. unfold make_move.
      cbn [Move.source Move.target] in *. unfold bind at 1. rewrite Hgv.
      unfold bind at 1, self at 1. by rewrite Hcase. }
  split; [exact Hiff |].
  intros Hmv. apply Hiff in Hmv as (moves & Hgv & _).
  by apply get_valid_moves_fields in Hgv.
Qed.

Lemma make_move_illegal_iff_witness :
  snd (make_move Examples.e4e6 Examples.after_e4_d5)
  = set_board (board (snd (make_move Examples.e4e6 Examples.after_e4_d5)))
      Examples.after_e4_d5.
Proof.
  refine (proj2 (make_move_illegal_iff Examples.e4e6 Examples.after_e4_d5
                   (snd (make_move Examples.e4e6 Examples.after_e4_d5))
                   _ _) _).
  - split; [reflexivity | vm_compute; repeat constructor].
  - reflexivity.
  - vm_compute. reflexivity.
Defined.

(** X22: a move from an empty square is refused with the illegal-move
    error and the board is left exactly as it was. *)
Theorem make_move_from_empty_square (m : Move.t) (b : t) :
  wf_grid (board b) ->
  Move._is_valid_position (Move.source m) = true ->
  Move._is_valid_position (Move.target m) = true ->
  cell (board b) (Move.source m) = "."%char ->
  make_move m b = (Raise (ValueError IllegalMove), b).
Proof.
  intros _ _ _ Hempty.
  assert (Hgv : get_valid_moves (Move.source m) false true b = (Ok [], b)).
  { apply get_valid_moves_empty. intros letter Hl. rewrite Hempty.
    cbn [In] in Hl.
    repeat (destruct Hl as [<- | Hl]; [discriminate |]). destruct Hl. }
  destruct m as [[sr sc] [dr dc] promo]. unfold make_move.
  cbn [Move.source Move.target] in *. unfold bind at 1. rewrite Hgv.
  reflexivity.
Qed.

Lemma make_move_from_empty_square_witness :
  make_move (Examples.move (4, 4) (3, 4)) (init None)
  = (Raise (ValueError IllegalMove), init None).
Proof.
  apply (make_move_from_empty_square (Examples.move (4, 4) (3, 4))
           (init None)).
  - split; [reflexivity | repeat constructor].
  - reflexivity.
  - reflexivity.
  - reflexivity.
Defined.

Lemma make_move_wf (m : Move.t) (b : t) :
  wf_grid (board b) -> wf_grid (board (snd (make_move m b))).
Proof.
  intros Hwf. destruct (make_move m b) as [r b'] eqn:Hmv. cbn [snd].
  destruct (make_move_outcomes _ _ _ _ Hmv)
    as (r0 & b1 & Hgv & Hcases).
  apply get_valid_moves_outcome in Hgv as [_ Hwf1].
  specialize (Hwf1 Hwf).
  destruct Hcases as [(e & _ & _ & ->)
                     | [(moves & _ & _ & _ & ->)
                       | (moves & _ & _ & _ & [-> | ->])]];
    try assumption.
  by apply wf_raw_move.
Qed.

(** X23: the grid stays 8x8. Whatever [get_valid_moves] and [make_move]
    do to a board whose grid has eight rows of eight cells, and however
    they end, the grid they leave has eight rows of eight cells; so it
    does over any list of [make_move] calls. The squares handed in are
    squares of the board, as those of every [Move] are. *)
Theorem grid_stays_8x8 (b : t) :
  let valid m := Move._is_valid_position (Move.source m) = true
                 /\ Move._is_valid_position (Move.target m) = true in
  wf_grid (board b) ->
  (forall pos ao vp,
      Move._is_valid_position pos = true ->
      wf_grid (board (snd (get_valid_moves pos ao vp b))))
  /\ (forall m, valid m -> wf_grid (board (snd (make_move m b))))
  /\ (forall moves, Forall valid moves -> wf_grid (board (play moves b))).
Proof.
  intros valid Hwf. split; [| split].
  - intros pos ao vp _.
    destruct (get_valid_moves pos ao vp b) as [r b'] eqn:Hgv.
    apply get_valid_moves_outcome in Hgv as [_ H]. by apply H.
  - intros m _. by apply make_move_wf.
  - intros moves _. revert b Hwf.
    induction moves as [| m moves IH]; intros b Hwf; simpl; [assumption |].
    apply IH. by apply make_move_wf.
Qed.

Lemma grid_stays_8x8_witness :
  wf_grid (board (snd (make_move Examples.e2e4 (init None)))).
Proof.
  refine (proj1 (proj2 (grid_stays_8x8 (init None) _)) Examples.e2e4 _).
  - split; [reflexivity | repeat constructor].
  - split; reflexivity.
Defined.

(** X24: what a successful [make_move] does to the grid. The source
    held a piece of the side to move and the target was among the
    destinations of [get_valid_moves]; afterwards the target holds that
    same piece, whatever promotion the move carries, the source is
    empty, and every other square holds what it held or has lost its
    piece. *)
Theorem make_move_relocates (m : Move.t) (b b' : t) :
  wf_grid (board b) ->
  Move._is_valid_position (Move.source m) = true ->
  Move._is_valid_position (Move.target m) = true ->
  make_move m b = (Ok tt, b') ->
  let piece := cell (board b) (Move.source m) in
  piece <> "."%char
  /\ isupper piece = white_turn b
  /\ (exists moves b1,
        get_valid_moves (Move.source m) false true b = (Ok moves, b1)
        /\ In (Move.target m) moves)
  /\ cell (board b') (Move.target m) = piece
  /\ cell (board b') (Move.source m) = "."%char
  /\ (forall s, s <> Move.source m -> s <> Move.target m ->
        cell (board b') s = cell (board b) s
        \/ (cell (board b') s = "."%char
            /\ cell (board b) s <> "."%char)).
Proof.
  intros Hwf Hsrc Hdst Hmv piece.
  destruct (make_move_Ok _ _ _ Hmv)
    as (moves & b1 & kp & chk & Hgv & Hmem & Hdot & Hcol & _ & Hboard & _).
  cbv zeta in *.
  destruct (get_valid_moves_frame _ _ _ _ _ _ Hwf Hgv)
    as (Hwf1 & Hpiece & Hfr).
  assert (Hw : white_turn b1 = white_turn b).
  { apply get_valid_moves_fields in Hgv. by rewrite Hgv. }
  apply mem_In in Hmem.
  assert (Hne : Move.target m <> Move.source m).
  { intros Heq. rewrite Heq in Hmem.
    eapply get_valid_moves_subset in Hmem; [| exact Hgv].
    by apply candidate_moves_not_source in Hmem. }
  rewrite Hpiece, Hw in *. fold piece in Hdot, Hcol.
  split; [intros H; apply Ascii.eqb_neq in Hdot; contradiction |].
  split; [assumption |].
  split; [eauto |].
  rewrite Hboard.
  split; [| split].
  - rewrite cell_raw_move by assumption.
    rewrite decide_True by reflexivity. exact Hpiece.
  - rewrite cell_raw_move by assumption.
    rewrite decide_False by congruence. by rewrite decide_True.
  - intros s Hs Ht. rewrite cell_raw_move by assumption.
    rewrite !decide_False by assumption.
    destruct (Hfr s) as [H | H]; [by left |].
    destruct (ascii_dec (cell (board b) s) ".") as [He | Hn];
      [left; congruence | right; auto].
Qed.

Lemma make_move_relocates_witness :
  cell (board (snd (make_move Examples.e2e4 (init None)))) (4, 4)
  = "P"%char.
Proof.
  refine (proj1 (proj2 (proj2 (proj2
            (make_move_relocates Examples.e2e4 (init None)
               (snd (make_move Examples.e2e4 (init None))) _ _ _ _))))).
  - split; [reflexivity | repeat constructor].
  - reflexivity.
  - reflexivity.
  - vm_compute. reflexivity.
Defined.

(** X25: turn and counters after a successful [make_move]. The side to
    move changes; the fullmove number goes up by one when black has
    moved and stays when white has; the halfmove clock is 0, whatever
    the move. So after two successful moves in a row the same side is
    to move again and the fullmove number is one higher. *)
Theorem make_move_counters (m : Move.t) (b b' : t) :
  wf_grid (board b) ->
  Move._is_valid_position (Move.source m) = true ->
  Move._is_valid_position (Move.target m) = true ->
  make_move m b = (Ok tt, b') ->
  white_turn b' = negb (white_turn b)
  /\ fullmove_number b'
     = fullmove_number b + (if white_turn b then 0 else 1)
  /\ halfmove_clock b' = 0
  /\ (forall m2 b'',
        make_move m2 b' = (Ok tt, b'') ->
        white_turn b'' = white_turn b
        /\ fullmove_number b'' = fullmove_number b + 1).
Proof.
  intros Hwf Hsrc Hdst Hmv.
  assert (Hstep : forall m b b',
             make_move m b = (Ok tt, b') ->
             white_turn b' = negb (white_turn b)
             /\ fullmove_number b'
                = fullmove_number b + (if white_turn b then 0 else 1)).
  { clear. intros m b b' Hmv.
    destruct (make_move_Ok _ _ _ Hmv)
      as (moves & b1 & kp & chk & Hgv & _ & _ & _ & _ & _ & Hturn & _ & _ & _
          & Hfull).
    cbv zeta in *. apply get_valid_moves_fields in Hgv.
    assert (Hw : white_turn b1 = white_turn b) by (by rewrite Hgv).
    assert (Hf : fullmove_number b1 = fullmove_number b)
      by (by rewrite Hgv).
    rewrite Hturn, Hfull, Hw, Hf. split; [reflexivity |].
    destruct (white_turn b); simpl; lia. }
  destruct (Hstep _ _ _ Hmv) as [Hturn Hfull].
  split; [assumption |]. split; [assumption |].
  split; [eapply make_move_halfmove_clock_zero; eauto |].
  intros m2 b'' Hmv2. destruct (Hstep _ _ _ Hmv2) as [Hturn2 Hfull2].
  rewrite Hturn2, Hfull2, Hturn, Hfull. split; [apply negb_involutive |].
  destruct (white_turn b); simpl; lia.
Qed.

Lemma make_move_counters_witness :
  white_turn (snd (make_move Examples.e2e4 (init None)))
  = negb (white_turn (init None)).
Proof.
  refine (proj1 (make_move_counters Examples.e2e4 (init None)
                   (snd (make_move Examples.e2e4 (init None))) _ _ _ _)).
  - split; [reflexivity | repeat constructor].
  - reflexivity.
  - reflexivity.
  - vm_compute. reflexivity.
Defined.

Lemma in_check_depends (b1 b2 : t) (white : bool) :
  board b1 = board b2 -> en_passant b1 = en_passant b2 ->
  in_check b1 white = in_check b2 white.
Proof. intros Hg Hep. by apply attack_queries_depend. Qed.

(** Unfolds the setters of the board record down to the record. *)
Ltac board_records :=
  cbv beta iota delta
    [fst snd board white_turn castling white_in_check black_in_check
     en_passant halfmove_clock fullmove_number set_board set_white_turn
     set_castling set_white_in_check set_black_in_check set_en_passant
     set_halfmove_clock set_fullmove_number castling_clear negb].

Lemma make_move_Ok_flags (m : Move.t) (b b' : t) :
  make_move m b = (Ok tt, b') ->
  exists chk,
    in_check b' (white_turn b') = Ok chk
    /\ white_in_check b' = (if white_turn b' then chk else false)
    /\ black_in_check b' = (if white_turn b' then false else chk).
Proof.
  destruct m as [[sr sc] [dr dc] promo]. unfold make_move.
  cbn [Move.source Move.target fst snd].
  unfold bind at 1.
  destruct (get_valid_moves _ _ _ b) as [[moves |] b1]; [| discriminate].
  unfold bind at 1. unfold self at 1.
  destruct (negb (mem (dr, dc) moves) || _ || _); [discriminate |].
  unfold bind at 1. unfold modify at 1.
  unfold bind at 1. unfold lift at 1. cbn [white_turn set_en_passant board].
  destruct (py_getitem _ 0) as [king_pos |]; [| discriminate].
  unfold make_raw_move, bind, modify, ret, self, lift.
  destruct b1 as [g w c wc bc ep hc fn].
  cbn [board white_turn castling halfmove_clock fullmove_number] in *.
  destruct w.
  all: destruct (square_eqb king_pos (sr, sc));
    destruct (Ascii.eqb (upper (cell g (sr, sc))) "R" && _);
    destruct (Ascii.eqb (upper (cell g (sr, sc))) "R" && _);
    board_fields;
    destruct (Ascii.eqb (upper (cell (raw_move g _) (sr, sc))) "P" || _);
    board_records;
    destruct (in_check _ _) as [chk |] eqn:Hic; try discriminate;
    intros Heq; apply (f_equal snd) in Heq; cbn [snd] in Heq;
    subst b'; exists chk; board_records;
    (split; [| split; reflexivity]);
    rewrite <- Hic; apply in_check_depends; reflexivity.
Qed.

(** X26: the check flags after a successful [make_move]. The flag of
    the side now to move says what [in_check] answers for that side on
    the new board, and the flag of the side that has moved is false,
    without a test. *)
Theorem make_move_check_flags (m : Move.t) (b b' : t) :
  wf_grid (board b) ->
  Move._is_valid_position (Move.source m) = true ->
  Move._is_valid_position (Move.target m) = true ->
  make_move m b = (Ok tt, b') ->
  in_check b' (white_turn b')
  = Ok (if white_turn b' then white_in_check b' else black_in_check b')
  /\ (if white_turn b' then black_in_check b' else white_in_check b')
     = false.
Proof.
  intros _ _ _ Hmv.
  destruct (make_move_Ok_flags _ _ _ Hmv) as (chk & Hic & Hw & Hb).
  rewrite Hic, Hw, Hb. by destruct (white_turn b').
Qed.

Lemma make_move_check_flags_witness :
  in_check (snd (make_move Examples.e2e4 (init None)))
    (white_turn (snd (make_move Examples.e2e4 (init None))))
  = Ok (if white_turn (snd (make_move Examples.e2e4 (init None)))
        then white_in_check (snd (make_move Examples.e2e4 (init None)))
        else black_in_check (snd (make_move Examples.e2e4 (init None)))).
Proof.
  refine (proj1 (make_move_check_flags Examples.e2e4 (init None)
                   (snd (make_move Examples.e2e4 (init None))) _ _ _ _)).
  - split; [reflexivity | repeat constructor].
  - reflexivity.
  - reflexivity.
  - vm_compute. reflexivity.
Defined.

(** X27: castling moves the king only. When [make_move] succeeds with a
    king going two files aside, the king started from its home square
    and the rook of that wing still stands on its own home square
    afterwards, the square the king passed over being empty as
    before. *)
Theorem castling_leaves_rook (m : Move.t) (b b' : t) (kingside : bool) :
  wf_grid (board b) ->
  Move._is_valid_position (Move.source m) = true ->
  Move._is_valid_position (Move.target m) = true ->
  make_move m b = (Ok tt, b') ->
  Ascii.eqb (upper (cell (board b) (Move.source m))) "K" = true ->
  Move.target m
  = (fst (Move.source m),
     snd (Move.source m) + (if kingside then 2 else -2)) ->
  let w := white_turn b in
  Move.source m = Spec.king_home w
  /\ cell (board b') (Spec.rook_home w kingside) = Spec.rook_of w
  /\ cell (board b')
          (Spec.home_row w, if kingside then 5 else 3) = "."%char
  /\ cell (board b') (Move.target m) = cell (board b) (Move.source m).
Proof.
  intros Hwf Hsrc Hdst Hmv HK Htarget w.
  destruct (make_move_Ok _ _ _ Hmv)
    as (moves & b1 & kp & chk & Hgv & Hmem & _ & Hcol & _ & Hboard & _).
  cbv zeta in *.
  destruct (get_valid_moves_frame _ _ _ _ _ _ Hwf Hgv)
    as (Hwf1 & Hpiece & _).
  assert (Hw : white_turn b1 = w).
  { apply get_valid_moves_fields in Hgv. by rewrite Hgv. }
  rewrite Hpiece, Hw in Hcol.
  apply mem_In in Hmem.
  pose proof (get_valid_moves_subset _ _ _ _ _ _ Hgv _ Hmem) as Hcand.
  destruct m as [[row col] dst promo].
  cbn [Move.source Move.target fst snd] in *. subst dst.
  (* the target is a castling destination *)
  rewrite candidate_moves_king in Hcand by assumption.
  cbn [negb] in Hcand. apply in_app_iff in Hcand as [Hnear | Hcastle].
  { apply steps_king_near in Hnear. destruct kingside; lia. }
  rewrite Hcol in Hcastle.
  apply castling_moves_target in Hcastle as [Hhome Havail].
  split; [assumption |].
  injection Hhome as -> ->.
  unfold Spec.castling_available, Spec.castling_path_clear in Havail.
  apply andb_true_iff in Havail as [Hpath _].
  apply andb_true_iff in Hpath as [Hpath Hrook].
  apply andb_true_iff in Hpath as [_ Hempty].
  apply Ascii.eqb_eq in Hrook.
  assert (Hframe : forall s,
             s <> (Spec.home_row w, 4) ->
             s <> (Spec.home_row w, 4 + (if kingside then 2 else -2)) ->
             (snd s < 2 \/ snd s > 6 \/ fst s <> Spec.home_row w
              \/ (snd s = 5 /\ kingside = true)
              \/ (snd s = 3 /\ kingside = false)) ->
             cell (board b') s = cell (board b) s
             \/ In s (steps (board b) w (Spec.home_row w) 4 king_offsets)).
  { intros s Hs Ht Hcol'.
    destruct (mem s (candidate_moves (is_under_attack b) b
                       (Spec.home_row w, 4) false)) eqn:Hm.
    - apply mem_In in Hm.
      rewrite candidate_moves_king in Hm by assumption.
      cbn [negb] in Hm. rewrite Hcol in Hm.
      apply in_app_iff in Hm as [Hm | Hm]; [by right |].
      exfalso. unfold castling_moves in Hm.
      destruct w; cbn [Spec.home_row andb negb Z.eqb Pos.eqb] in *;
        apply in_app_iff in Hm; rewrite !In_singleton_if in Hm;
        destruct Hm as [[_ <-] | [_ <-]]; cbn [fst snd] in *;
        destruct kingside; intuition (try lia; try congruence).
    - left.
      apply (make_move_frame b b'
               (Move.mk (Spec.home_row w, 4)
                  (Spec.home_row w, 4 + (if kingside then 2 else -2))
                  promo) s); try assumption.
      intros Hin. apply mem_In in Hin. cbn [Move.source] in Hin.
      congruence. }
  split; [| split].
  - rewrite <- Hrook.
    destruct (Hframe (Spec.rook_home w kingside)) as [H | H];
      [ unfold Spec.rook_home; destruct kingside; intros [= ?]; lia
      | unfold Spec.rook_home; destruct kingside; intros [= ?]; lia
      | unfold Spec.rook_home; cbn [fst snd]; destruct kingside; lia
      | exact H | ].
    apply steps_king_near in H. unfold Spec.rook_home in H.
    cbn [fst snd] in H. destruct kingside; lia.
  - (* the square passed over: a candidate, probed while empty *)
    assert (Hpass : cell (board b)
                      (Spec.home_row w, if kingside then 5 else 3)
                    = "."%char).
    { unfold Spec.between_king_and_rook in Hempty.
      destruct kingside; cbn [forallb] in Hempty;
        apply andb_true_iff in Hempty as [H _]; by apply Ascii.eqb_eq. }
    rewrite Hboard, cell_raw_move by assumption.
    cbn [Move.source Move.target].
    rewrite decide_False by (destruct kingside; intros [= ?]; lia).
    rewrite decide_False by (destruct kingside; intros [= ?]; lia).
    destruct (get_valid_moves_frame _ _ _ _ _ _ Hwf Hgv) as (_ & _ & Hfr).
    destruct (Hfr (Spec.home_row w, if kingside then 5 else 3)) as [H | H];
      [by rewrite H | exact H].
  - rewrite Hboard, cell_raw_move by assumption.
    cbn [Move.source Move.target].
    rewrite decide_True by reflexivity. exact Hpiece.
Qed.

Lemma castling_leaves_rook_witness :
  Move.source Examples.e1g1 = Spec.king_home true
  /\ cell (board (snd (make_move Examples.e1g1 Examples.castle_ready)))
          (Spec.rook_home true true) = Spec.rook_of true
  /\ cell (board (snd (make_move Examples.e1g1 Examples.castle_ready)))
          (Spec.home_row true, 5) = "."%char
  /\ cell (board (snd (make_move Examples.e1g1 Examples.castle_ready)))
          (Move.target Examples.e1g1)
     = cell (board Examples.castle_ready) (Move.source Examples.e1g1).
Proof.
  apply (castling_leaves_rook Examples.e1g1 Examples.castle_ready
           (snd (make_move Examples.e1g1 Examples.castle_ready)) true).
  - split; [reflexivity | vm_compute; repeat constructor].
  - reflexivity.
  - reflexivity.
  - vm_compute. reflexivity.
  - reflexivity.
  - reflexivity.
Defined.

(** ** [get_all_valid_moves] *)

Lemma all_moves_loop_no_pins (ao : bool) (b : t) :
  forall squares,
    BoardRest.all_moves_loop squares ao false b
    = (Ok (map (fun s => (s, (cell (board b) s,
                             candidate_moves (is_under_attack b) b s ao)))
               squares), b).
Proof.
  induction squares as [| s squares IH]; [reflexivity |].
  cbn [BoardRest.all_moves_loop map]. unfold bind at 1, self at 1.
  unfold bind at 1. rewrite get_valid_moves_no_pin_total.
  unfold bind at 1. rewrite IH. reflexivity.
Qed.

Lemma all_moves_loop_keys (ao vp : bool) :
  forall squares b b' entries,
    BoardRest.all_moves_loop squares ao vp b = (Ok entries, b') ->
    map fst entries = squares.
Proof.
  induction squares as [| s squares IH]; intros b b' entries.
  - by intros [= <- <-].
  - cbn [BoardRest.all_moves_loop]. unfold bind at 1, self at 1.
    unfold bind at 1.
    destruct (get_valid_moves s ao vp b) as [[moves |] b1]; [| discriminate].
    unfold bind at 1.
    destruct (BoardRest.all_moves_loop squares ao vp b1)
      as [[tl |] b2] eqn:Htl; [| discriminate].
    intros [= <- <-]. cbn [map fst]. f_equal. eapply IH; eauto.
Qed.

(** X28: [get_all_valid_moves] on an 8x8 grid. When it returns, the dictionary has one
    entry for each of the 64 squares, in row order, whatever the flags.
    With [validate_pins=False] it always returns, the board is left as
    it was, and the entry of a square holds the piece on it and the
    list [get_valid_moves] returns for it; with
    [attack_moves_only=True] as well, this is the table that
    [is_under_attack] searches. *)
Theorem get_all_valid_moves_spec (b : t) (ao : bool) :
  wf_grid (board b) ->
  (forall vp b' entries,
      BoardRest.get_all_valid_moves ao vp b = (Ok entries, b') ->
      map fst entries = all_squares)
  /\ (exists entries,
        BoardRest.get_all_valid_moves ao false b = (Ok entries, b)
        /\ forall s piece moves,
             In (s, (piece, moves)) entries
             <-> is_inside (fst s) (snd s) = true
                 /\ piece = cell (board b) s
                 /\ get_valid_moves s ao false b = (Ok moves, b))
  /\ BoardRest.get_all_valid_moves true false b
     = (Ok (get_all_valid_moves b), b).
Proof.
  intros _. split; [| split].
  - intros vp b' entries. apply all_moves_loop_keys.
  - eexists. split; [apply all_moves_loop_no_pins |].
    intros s piece moves. rewrite in_map_iff. split.
    + intros (s' & [= -> <- <-] & Hs). split; [| split].
      * apply all_squares_inside. by apply list_elem_of_In.
      * reflexivity.
      * apply get_valid_moves_no_pin_total.
    + intros (Hin & -> & Hgv). exists s.
      rewrite get_valid_moves_no_pin_total in Hgv. injection Hgv as <-.
      split; [reflexivity |]. apply list_elem_of_In. destruct s.
      by apply all_squares_complete.
  - unfold BoardRest.get_all_valid_moves. rewrite all_moves_loop_no_pins.
    unfold get_all_valid_moves, attack_moves.
    rewrite (map_ext _ (fun s => (s, (cell (board b) s,
                candidate_moves (fun _ _ => false) b s true))));
      [reflexivity |].
    intros s.
    by rewrite (candidate_moves_attack_only _ (fun _ _ => false)).
Qed.

Lemma get_all_valid_moves_spec_witness :
  map fst (Board.get_all_valid_moves (init None)) = all_squares.
Proof.
  assert (Hwf : wf_grid (board (init None)))
    by (split; [reflexivity | repeat constructor]).
  apply (proj1 (get_all_valid_moves_spec (init None) true Hwf) false
           (init None)).
  apply (proj2 (proj2 (get_all_valid_moves_spec (init None) true Hwf))).
Defined.

(** ** What [get_valid_moves] and [make_move] raise *)

Lemma find_nil (g : grid) (piece : ascii) :
  piece <> "."%char ->
  find g piece = [] <-> forall s, cell g s <> piece.
Proof.
  intros Hne. split.
  - intros Hnil s Hs. apply elem_of_find in Hs; [| assumption].
    rewrite Hnil in Hs. by apply not_elem_of_nil in Hs.
  - intros Hno. destruct (find g piece) as [| s rest] eqn:Hfind;
      [reflexivity |].
    exfalso. apply (Hno s). apply elem_of_find; [assumption |].
    rewrite Hfind. by left.
Qed.

(** The test of the pin section, once the probe has been made: the
    square the piece has left is empty, so the king looked for is the
    black one. *)
Lemma probe_in_check (b : t) (pos move : square) :
  wf_grid (board b) ->
  Move._is_valid_position pos = true ->
  Move._is_valid_position move = true ->
  move <> pos ->
  let b1 := set_board (raw_move (board b) (Move.mk pos move None)) b in
  in_check b1 (isupper (cell (board b1) pos))
  = match find (board b1) "k"%char with
    | [] => Raise IndexError
    | s :: _ => Ok (is_under_attack b1 s true)
    end.
Proof.
  intros Hwf Hp Hm Hne b1. rewrite in_check_unfold.
  replace (isupper (cell (board b1) pos)) with false; [reflexivity |].
  symmetry. unfold b1. destruct b. cbn [board set_board].
  by apply probe_reads_empty_square.
Qed.

Lemma pin_loop_raises (pos : square) :
  forall (fuel i : nat) (moves : list square) (b b' : t) (e : exn),
    wf_grid (board b) ->
    Move._is_valid_position pos = true ->
    (forall x, In x moves -> Move._is_valid_position x = true /\ x <> pos) ->
    pin_loop fuel pos i moves b = (Raise e, b') ->
    e = IndexError /\ forall s, cell (board b') s <> "k"%char.
Proof.
  induction fuel as [| fuel IH]; intros i moves b b' e Hwf Hp Hmoves.
  - discriminate.
  - rewrite pin_loop_step.
    destruct (moves !! i) as [move |] eqn:Hi; [| discriminate].
    assert (Hin : In move moves).
    { apply list_elem_of_In. eapply list_elem_of_lookup_2; eauto. }
    destruct (Hmoves move Hin) as [Hm Hne].
    rewrite (proj2 (Move_init_None pos move _) (conj Hp (conj Hm eq_refl))).
    cbv zeta. rewrite probe_in_check by assumption.
    destruct (find _ "k"%char) as [| kp rest] eqn:Hfind.
    { intros [= <- <-]. split; [reflexivity |].
      exact (proj1 (find_nil _ "k"%char ltac:(discriminate)) Hfind). }
    rewrite (proj2 (Move_init_None move pos _) (conj Hm (conj Hp eq_refl))).
    apply IH.
    + destruct b. cbn [board set_board]. by do 2 apply wf_raw_move.
    + assumption.
    + intros x Hx. apply Hmoves.
      destruct (is_under_attack _ _ _); [| assumption].
      by apply remove_first_subset in Hx.
Qed.

Lemma pin_loop_returns (pos kp : square) :
  forall (fuel i : nat) (moves : list square) (b : t),
    wf_grid (board b) ->
    Move._is_valid_position pos = true ->
    (forall x, In x moves ->
               Move._is_valid_position x = true /\ x <> pos /\ x <> kp) ->
    cell (board b) kp = "k"%char ->
    exists res b', pin_loop fuel pos i moves b = (Ok res, b').
Proof.
  induction fuel as [| fuel IH]; intros i moves b Hwf Hp Hmoves Hk.
  - by exists moves, b.
  - rewrite pin_loop_step.
    destruct (moves !! i) as [move |] eqn:Hi; [| by exists moves, b].
    assert (Hin : In move moves).
    { apply list_elem_of_In. eapply list_elem_of_lookup_2; eauto. }
    destruct (Hmoves move Hin) as (Hm & Hne & Hnk).
    rewrite (proj2 (Move_init_None pos move _) (conj Hp (conj Hm eq_refl))).
    cbv zeta. rewrite probe_in_check by assumption.
    destruct (find _ "k"%char) as [| s rest] eqn:Hfind.
    { exfalso.
      pose proof (proj1 (find_nil _ "k"%char ltac:(discriminate)) Hfind)
        as Hno.
      clear Hfind. rename Hno into Hfind.
      destruct b as [g w c wc bc ep hc fn]. cbn [board set_board] in *.
      destruct (decide (kp = pos)) as [-> | Hkp].
      - apply (Hfind move). rewrite cell_raw_move by assumption.
        cbn [Move.source Move.target]. by rewrite decide_True.
      - apply (Hfind kp). rewrite cell_raw_move by assumption.
        cbn [Move.source Move.target].
        rewrite decide_False by congruence.
        by rewrite decide_False. }
    rewrite (proj2 (Move_init_None move pos _) (conj Hm (conj Hp eq_refl))).
    apply IH.
    + destruct b. cbn [board set_board]. by do 2 apply wf_raw_move.
    + assumption.
    + intros x Hx. apply Hmoves.
      destruct (is_under_attack _ _ _); [| assumption].
      by apply remove_first_subset in Hx.
    + destruct b as [g w c wc bc ep hc fn]. cbn [board set_board] in *.
      rewrite cell_probe_undo by assumption.
      destruct (decide (kp = pos)) as [-> | Hkp]; [assumption |].
      rewrite decide_False by congruence. assumption.
Qed.

Lemma get_valid_moves_raises_only (b b' : t) (pos : square) (ao vp : bool)
  (e : exn) :
  wf_grid (board b) ->
  Move._is_valid_position pos = true ->
  get_valid_moves pos ao vp b = (Raise e, b') ->
  vp = true /\ e = IndexError /\ forall s, cell (board b') s <> "k"%char.
Proof.
  intros Hwf Hp. rewrite get_valid_moves_unfold. cbv zeta.
  destruct vp; [| discriminate].
  intros H. split; [reflexivity |].
  eapply pin_loop_raises; eauto.
  intros x Hx. split; [by eapply candidate_moves_inside |].
  intros ->. by apply candidate_moves_not_source in Hx.
Qed.

(** X29: what [get_valid_moves] and [make_move] raise, on an 8x8 grid
    and for a square of the board. [get_valid_moves] raises only
    [IndexError], only with [validate_pin=True], and the grid it then
    leaves has no black king. It returns when a black king stands on a
    square that is not a candidate destination. On a grid without a
    black king and with at least one candidate it raises [IndexError]
    at the first probe and leaves the piece on the first candidate
    square: the probe is not undone. [make_move] from that square
    raises only the illegal-move error or [IndexError]. *)
Theorem get_valid_moves_raises (b : t) (pos : square) (ao : bool) :
  wf_grid (board b) ->
  Move._is_valid_position pos = true ->
  (forall vp e b',
      get_valid_moves pos ao vp b = (Raise e, b') ->
      vp = true /\ e = IndexError
      /\ forall s, cell (board b') s <> "k"%char)
  /\ (forall kp candidates,
        cell (board b) kp = "k"%char ->
        get_valid_moves pos ao false b = (Ok candidates, b) ->
        ~ In kp candidates ->
        exists moves b',
          get_valid_moves pos ao true b = (Ok moves, b'))
  /\ (forall first rest,
        (forall s, cell (board b) s <> "k"%char) ->
        get_valid_moves pos ao false b = (Ok (first :: rest), b) ->
        get_valid_moves pos ao true b
        = (Raise IndexError,
           set_board (raw_move (board b) (Move.mk pos first None)) b))
  /\ (forall m e b',
        Move.source m = pos ->
        make_move m b = (Raise e, b') ->
        e = ValueError IllegalMove \/ e = IndexError).
Proof.
  intros Hwf Hp. split; [| split; [| split]].
  - intros vp e b'. by apply get_valid_moves_raises_only.
  - intros kp candidates Hk Hc Hnot.
    rewrite get_valid_moves_no_pin_total in Hc.
    apply (f_equal fst) in Hc. cbn [fst] in Hc. injection Hc as Hc.
    rewrite get_valid_moves_unfold. cbv zeta. rewrite Hc.
    apply (pin_loop_returns pos kp); try assumption.
    intros x Hx. rewrite <- Hc in Hx. split; [| split].
    + by eapply candidate_moves_inside.
    + intros ->. by apply candidate_moves_not_source in Hx.
    + intros ->. apply Hnot. by rewrite <- Hc.
  - intros first rest Hno Hc.
    rewrite get_valid_moves_no_pin_total in Hc.
    apply (f_equal fst) in Hc. cbn [fst] in Hc. injection Hc as Hc.
    assert (Hfirst : In first (candidate_moves (is_under_attack b) b pos ao))
      by (rewrite Hc; by left).
    assert (Hm : Move._is_valid_position first = true)
      by (by eapply candidate_moves_inside).
    assert (Hne : first <> pos).
    { intros ->. by apply candidate_moves_not_source in Hfirst. }
    rewrite get_valid_moves_unfold. cbv zeta. rewrite Hc.
    cbn [length]. rewrite pin_loop_step. cbn [lookup list_lookup].
    rewrite (proj2 (Move_init_None pos first _)
               (conj Hp (conj Hm eq_refl))).
    cbv zeta. rewrite probe_in_check by assumption.
    replace (find _ "k"%char) with (@nil square); [reflexivity |].
    symmetry. apply find_nil; [discriminate |].
    intros s. destruct b as [g w c wc bc ep hc fn].
    cbn [board set_board] in *. rewrite cell_raw_move by assumption.
    cbn [Move.source Move.target].
    destruct (decide (s = first)); [apply Hno |].
    destruct (decide (s = pos)); [discriminate | apply Hno].
  - intros m e b' Hsrc Hmv.
    destruct (make_move_outcomes _ _ _ _ Hmv) as (r0 & b1 & Hgv & Hcases).
    rewrite Hsrc in Hgv.
    destruct Hcases as [(e0 & -> & [= <-] & _)
                       | [(moves & _ & _ & [= <-] & _)
                         | (moves & _ & _ & [[=] | [= <-]] & _)]].
    + apply get_valid_moves_raises_only in Hgv as (_ & -> & _);
        [by right | assumption | assumption].
    + by left.
    + by right.
Qed.

Lemma get_valid_moves_raises_witness :
  get_valid_moves (6, 4) false true Examples.no_black_king
  = (Raise IndexError,
     set_board (raw_move (board Examples.no_black_king)
                         (Move.mk (6, 4) (5, 4) None))
               Examples.no_black_king).
Proof.
  refine (proj1 (proj2 (proj2 (get_valid_moves_raises
                                 Examples.no_black_king (6, 4) false _ _)))
            (5, 4) [(4, 4)] _ _).
  - split; [reflexivity | repeat constructor].
  - reflexivity.
  - intros [r c].
    destruct (is_inside r c) eqn:Hin;
      [| rewrite cell_outside by assumption; discriminate].
    assert (Hs : (r, c) ∈ all_squares) by (by apply all_squares_complete).
    apply list_elem_of_In in Hs. vm_compute in Hs.
    repeat (destruct Hs as [[= <- <-] | Hs]; [vm_compute; discriminate |]).
    destruct Hs.
  - vm_compute. reflexivity.
Defined.
